(** * Ingestion and reset of the Chroma vector store

    A shallow embedding of [code/utils/populate_db.py] and
    [Flask backend/utils/clear_db.py], with the properties of chunk-ID
    assignment, incremental ingestion and reset proved over it. *)

From Stdlib Require Import ZArith String Ascii List Lia.
From Stdlib Require Import Decimal DecimalString DecimalPos DecimalZ.
From stdpp Require Import base option list gmap strings.

Local Open Scope Z_scope.

(** ** Python values *)

Module Py.

(** The values that live in a metadata dict or in a result dict. *)
Inductive value : Type :=
  | VNone
  | VBool (b : bool)
  | VInt (n : Z)
  | VStr (s : string).

#[export] Instance value_eq_dec : EqDecision value.
Proof. solve_decision. Defined.

(** [str(n)] for a Python [int]: decimal digits, ["-"] in front of a
    negative number. *)
Definition str_int (n : Z) : string := NilZero.string_of_int (Z.to_int n).

(** What an f-string field [{v}] prints. *)
Definition str (v : value) : string :=
  match v with
  | VNone => "None"
  | VBool true => "True"
  | VBool false => "False"
  | VInt n => str_int n
  | VStr s => s
  end.

(** An exception, as far as the two scripts can tell one from another:
    whether it is an instance of [Exception] (a [KeyboardInterrupt], a
    [SystemExit] or another [BaseException] is not), and what [str(e)]
    gives. *)
Record exn : Type := mkExn {
  is_Exception : bool;
  exn_str : string
}.

(** An exception of a class below [Exception], such as [KeyError]. *)
Definition an_Exception (msg : string) : exn :=
  {| is_Exception := true; exn_str := msg |}.

(** [len(l)] *)
Definition len {A} (l : list A) : Z := Z.of_nat (length l).

(** [d.get(k)], which defaults to [None]. *)
Definition dict_get (d : gmap string value) (k : string) : value :=
  default VNone (d !! k).

(** [needle in hay] for two strings. *)
Fixpoint contains (needle hay : string) : bool :=
  if String.prefix needle hay then true
  else match hay with
       | EmptyString => false
       | String _ rest => contains needle rest
       end.

End Py.
Import Py.

(** ** Documents and chunks *)

(** [langchain.schema.document.Document]: the text and a metadata dict.
    A chunk is a [Document] too. *)
Record Document : Type := mkDocument {
  page_content : string;
  metadata : gmap string value
}.

#[export] Instance Document_eq_dec : EqDecision Document.
Proof. solve_decision. Defined.

(** [chunk.metadata["id"] = chunk_id] *)
Definition set_id (chunk : Document) (chunk_id : string) : Document :=
  {| page_content := page_content chunk;
     metadata := <["id" := VStr chunk_id]> (metadata chunk) |}.

(** ** The outside world: file system, store, collaborators *)

Definition CHROMA_PATH : string := "chroma".
Definition DATA_PATH : string := "data".

Section World.
Context {Vector : Type}.

(** A record of the vector store: the text, its metadata and its
    embedding; the identifier is the key it is stored under. *)
Record StoreRecord : Type := mkStoreRecord {
  rec_document : string;
  rec_metadata : gmap string value;
  rec_embedding : Vector
}.

(** The two fixed locations. [data_dir] is [None] when the directory
    [DATA_PATH] does not exist, and otherwise holds the documents its
    PDF files load to; [chroma_dir] is [None] when [CHROMA_PATH] does
    not exist, and otherwise holds the records of the store kept there. *)
Record World : Type := mkWorld {
  data_dir : option (list Document);
  chroma_dir : option (gmap string StoreRecord)
}.

(** The calls the two scripts make to the outside, as they appear in the
    journal of a run; [raised] marks a call that ended in an exception. *)
Inductive Event : Type :=
  | ev_print (text : string)
  | ev_os_path_exists (path : string)
  | ev_shutil_rmtree (path : string)
  | ev_PyPDFDirectoryLoader_load (path : string)
  | ev_split_documents (documents : list Document)
  | ev_get_embedding_function
  | ev_Chroma (persist_directory : string)
  | ev_db_get
  | ev_db_add_documents (documents : list Document) (ids : list string)
  | ev_db_delete (ids : list string)
  | ev_raised (e : exn).

(** The exceptions of a run: a call may raise an exception, of whatever
    class, and leave the world in whatever state it got to. [None] lets
    the call do its work. *)
Definition Faults : Type := Event → World → option (exn * World).

Definition no_faults : Faults := λ _ _, None.

Record State : Type := mkState {
  world : World;
  journal : list Event
}.

Definition init (w : World) : State := {| world := w; journal := [] |}.

(** *** Computations that may raise *)

Inductive Outcome (A : Type) : Type :=
  | Return (a : A)
  | Raise (e : exn).
Global Arguments Return {A} a.
Global Arguments Raise {A} e.

Definition M (A : Type) : Type := State → Outcome A * State.

Definition ret {A} (a : A) : M A := λ st, (Return a, st).

Definition raise {A} (e : exn) : M A := λ st, (Raise e, st).

Definition bind {A B} (m : M A) (k : A → M B) : M B := λ st,
  match m st with
  | (Return a, st') => k a st'
  | (Raise e, st') => (Raise e, st')
  end.

(** [try: m except Exception as e: handler(str(e))]. The handler takes
    the instances of [Exception]; any other exception goes on to the
    caller. *)
Definition try_except {A} (m : M A) (handler : string → M A) : M A := λ st,
  match m st with
  | (Return a, st') => (Return a, st')
  | (Raise e, st') =>
      if is_Exception e then handler (exn_str e) st' else (Raise e, st')
  end.

(** *** The store, modelled from its capability interface *)

(** The handle [Chroma(persist_directory=..., embedding_function=...)]
    returns. *)
Record Db : Type := mkDb {
  persist_directory : string;
  db_embedding_function : string → Vector
}.

Definition store_of (w : World) : gmap string StoreRecord :=
  default ∅ (chroma_dir w).

(** Modelled from the spec: the identifiers of the store, fetched with
    an empty projection ([get_all_ids] of the store capability). *)
Definition store_ids (w : World) : list string := (map_to_list (store_of w)).*1.

Definition record_of (db : Db) (chunk : Document) : StoreRecord :=
  {| rec_document := page_content chunk;
     rec_metadata := metadata chunk;
     rec_embedding := db_embedding_function db (page_content chunk) |}.

(** Modelled from the spec: batch upsert by identifier, the records in
    the order given. *)
Definition upsert_all (db : Db) (documents : list Document) (ids : list string)
    (store : gmap string StoreRecord) : gmap string StoreRecord :=
  foldl (λ m '(i, chunk), <[i := record_of db chunk]> m) store (zip ids documents).

(** Modelled from the spec: batch delete by identifier. *)
Definition delete_all (ids : list string)
    (store : gmap string StoreRecord) : gmap string StoreRecord :=
  foldr delete store ids.

Definition with_store (f : gmap string StoreRecord → gmap string StoreRecord)
    (w : World) : World :=
  {| data_dir := data_dir w; chroma_dir := Some (f (store_of w)) |}.

(** *** Calls *)

Section Calls.
Variable F : Faults.

(** A call to a collaborator: it is entered in the journal, and either
    raises as [F] says or does its nominal work. *)
Definition call {A} (ev : Event) (nominal : World → A * World) : M A := λ st,
  match F ev (world st) with
  | Some (e, w') =>
      (Raise e, {| world := w'; journal := journal st ++ [ev; ev_raised e] |})
  | None =>
      let '(a, w') := nominal (world st) in
      (Return a, {| world := w'; journal := journal st ++ [ev] |})
  end.

Definition print (text : string) : M unit :=
  call (ev_print text) (λ w, (tt, w)).

(** [os.path.exists] answers [False] on every error instead of
    raising. *)
Definition os_path_exists (path : string) : M bool := λ st,
  let w := world st in
  let b := if decide (path = CHROMA_PATH) then bool_decide (is_Some (chroma_dir w))
           else if decide (path = DATA_PATH) then bool_decide (is_Some (data_dir w))
           else false in
  (Return b, {| world := w; journal := journal st ++ [ev_os_path_exists path] |}).

Definition shutil_rmtree (path : string) : M unit :=
  call (ev_shutil_rmtree path) (λ w,
    (tt, {| data_dir := if decide (path = DATA_PATH) then None else data_dir w;
            chroma_dir := if decide (path = CHROMA_PATH) then None else chroma_dir w |})).

(** [PyPDFDirectoryLoader(path).load()] *)
Definition PyPDFDirectoryLoader_load (path : string) : M (list Document) :=
  call (ev_PyPDFDirectoryLoader_load path) (λ w,
    (if decide (path = DATA_PATH) then default [] (data_dir w) else [], w)).

(** [Chroma(persist_directory=path, embedding_function=ef)]: opens the
    store at [path], creating an empty one when there is none. *)
Definition Chroma (path : string) (ef : string → Vector) : M Db :=
  call (ev_Chroma path) (λ w,
    ({| persist_directory := path; db_embedding_function := ef |},
     if decide (path = CHROMA_PATH) then with_store id w else w)).

(** [db.get(include=[])["ids"]] *)
Definition db_get (db : Db) : M (list string) :=
  call ev_db_get (λ w, (store_ids w, w)).

(** [db.add_documents(documents, ids=ids)] *)
Definition db_add_documents (db : Db) (documents : list Document) (ids : list string)
    : M unit :=
  call (ev_db_add_documents documents ids) (λ w,
    (tt, with_store (upsert_all db documents ids) w)).

(** [db.delete(ids=ids)] *)
Definition db_delete (db : Db) (ids : list string) : M unit :=
  call (ev_db_delete ids) (λ w, (tt, with_store (delete_all ids) w)).
End Calls.
End World.

Global Arguments StoreRecord : clear implicits.
Global Arguments World : clear implicits.
Global Arguments Faults : clear implicits.
Global Arguments State : clear implicits.
Global Arguments M : clear implicits.
Global Arguments Db : clear implicits.

Declare Scope py_scope.
Delimit Scope py_scope with py.
Notation "x <- m ;; k" := (bind m (λ x, k))
  (at level 100, m at next level, right associativity) : py_scope.
Notation "m ;; k" := (bind m (λ _, k))
  (at level 100, right associativity) : py_scope.
Local Open Scope py_scope.

(** ** [code/utils/populate_db.py] *)

Module populate_db.

(** [current_page_id = f"{source}:{page}"] *)
Definition page_id_of (chunk : Document) : string :=
  let source := dict_get (metadata chunk) "source" in
  let page := dict_get (metadata chunk) "page" in
  str source +:+ ":" +:+ str page.

(** The body of the [for] loop of [calculate_chunk_ids], threaded with
    the two loop variables [last_page_id] (an [Optional[str]]) and
    [current_chunk_index]. The list of chunks is built by the splitter
    from fresh objects, one per position, so the assignment to
    [chunk.metadata["id"]] is an update of that position. *)
Fixpoint calculate_chunk_ids_loop
    (last_page_id : option string) (current_chunk_index : Z)
    (chunks : list Document) : list Document :=
  match chunks with
  | [] => []
  | chunk :: rest =>
      let current_page_id := page_id_of chunk in
      let current_chunk_index :=
        if decide (Some current_page_id = last_page_id)
        then current_chunk_index + 1
        else 0 in
      let chunk_id := current_page_id +:+ ":" +:+ str_int current_chunk_index in
      let last_page_id := Some current_page_id in
      set_id chunk chunk_id
        :: calculate_chunk_ids_loop last_page_id current_chunk_index rest
  end.

Definition calculate_chunk_ids (chunks : list Document) : list Document :=
  calculate_chunk_ids_loop None 0 chunks.

Section populate_db.
Context {Vector : Type}.
(** What [utils.get_embedding_function.get_embedding_function()]
    returns, and what [RecursiveCharacterTextSplitter.split_documents]
    computes: both are taken as given. *)
Variable embedding_function : string → Vector.
Variable text_splitter : list Document → list Document.
Variable F : Faults Vector.

Definition get_embedding_function : M Vector (string → Vector) :=
  call F ev_get_embedding_function (λ w, (embedding_function, w)).

Definition load_documents : M Vector (list Document) :=
  PyPDFDirectoryLoader_load F DATA_PATH.

Definition split_documents (documents : list Document) : M Vector (list Document) :=
  call F (ev_split_documents documents) (λ w, (text_splitter documents, w)).

(** [chunk.metadata["id"]]: the string [calculate_chunk_ids] wrote.
    A missing key is a [KeyError]; a value that is not a string is not
    an identifier the store takes. *)
Definition metadata_id (chunk : Document) : M Vector string :=
  match metadata chunk !! "id" with
  | Some (VStr i) => ret i
  | Some _ => raise (an_Exception "Expected ID to be a str")
  | None => raise (an_Exception "'id'")
  end.

(** The loop that keeps the chunks whose id is not in the store. *)
Fixpoint new_chunks_loop (existing_ids : gset string) (chunks_with_ids : list Document)
    : M Vector (list Document) :=
  match chunks_with_ids with
  | [] => ret []
  | chunk :: rest =>
      i <- metadata_id chunk ;;
      new_chunks <- new_chunks_loop existing_ids rest ;;
      ret (if decide (i ∉ existing_ids) then chunk :: new_chunks else new_chunks)
  end.

(** [[chunk.metadata["id"] for chunk in new_chunks]] *)
Fixpoint ids_of (new_chunks : list Document) : M Vector (list string) :=
  match new_chunks with
  | [] => ret []
  | chunk :: rest =>
      i <- metadata_id chunk ;;
      ids <- ids_of rest ;;
      ret (i :: ids)
  end.

Definition add_to_chroma (chunks : list Document) : M Vector Z :=
  ef <- get_embedding_function ;;
  db <- Chroma F CHROMA_PATH ef ;;
  let chunks_with_ids := calculate_chunk_ids chunks in
  existing_items <- db_get F db ;;
  let existing_ids : gset string := list_to_set existing_items in
  print F ("Number of existing documents in DB: " +:+ str_int (Z.of_nat (size existing_ids))) ;;
  new_chunks <- new_chunks_loop existing_ids chunks_with_ids ;;
  if decide (len new_chunks ≠ 0) then
    print F ("👉 Adding new documents: " +:+ str_int (len new_chunks)) ;;
    new_chunk_ids <- ids_of new_chunks ;;
    db_add_documents F db new_chunks new_chunk_ids ;;
    print F "✅ Documents added and persisted automatically" ;;
    ret (len new_chunks)
  else
    print F "✅ No new documents to add" ;;
    ret 0.

Definition clear_database : M Vector unit :=
  present <- os_path_exists CHROMA_PATH ;;
  if present then shutil_rmtree F CHROMA_PATH else ret tt.

(** The body of the [try] of [populate_database]. *)
Definition populate_database_try (reset : bool) : M Vector (gmap string value) :=
  (if reset then
     print F "✨ Clearing Database" ;;
     clear_database
   else ret tt) ;;
  present <- os_path_exists DATA_PATH ;;
  if negb present then
    ret {[ "success" := VBool false;
           "message" := VStr ("Data directory '" +:+ DATA_PATH
                              +:+ "' not found. Please create it and add PDF files.") ]}
  else
    documents <- load_documents ;;
    if decide (documents = []) then
      ret {[ "success" := VBool false;
             "message" := VStr ("No PDF documents found in '" +:+ DATA_PATH
                                +:+ "' directory.") ]}
    else
      chunks <- split_documents documents ;;
      new_docs_added <- add_to_chroma chunks ;;
      let message :=
        if decide (new_docs_added > 0) then "Database populated successfully"
        else "No new documents were added. All documents already exist in the database." in
      ret {[ "success" := VBool true;
             "message" := VStr message;
             "documents_processed" := VInt (len documents);
             "chunks_created" := VInt (len chunks);
             "new_documents_added" := VInt new_docs_added ]}.

Definition populate_database (reset : bool) : M Vector (gmap string value) :=
  try_except (populate_database_try reset) (λ e,
    ret {[ "success" := VBool false;
           "message" := VStr ("Error populating database: " +:+ e) ]}).

End populate_db.
End populate_db.
Import populate_db.

(** ** [Flask backend/utils/clear_db.py] *)

Module clear_db.
Section clear_db.
Context {Vector : Type}.
Variable embedding_function : string → Vector.
Variable F : Faults Vector.

Definition get_embedding_function : M Vector (string → Vector) :=
  call F ev_get_embedding_function (λ w, (embedding_function, w)).

Definition clear_chroma_database : M Vector (gmap string value) :=
  ef <- get_embedding_function ;;
  db <- Chroma F CHROMA_PATH ef ;;
  existing_items <- db_get F db ;;
  let existing_ids := existing_items in
  let deleted_count := len existing_ids in
  message <-
    (if decide (deleted_count > 0) then
       db_delete F db existing_ids ;;
       ret ("🗑️ Deleted " +:+ str_int deleted_count +:+ " documents from Chroma database.")
     else
       ret "📂 No documents to delete in the Chroma database.") ;;
  ret {[ "success" := VBool true;
         "message" := VStr message;
         "chunks_deleted" := VInt deleted_count ]}.

End clear_db.
End clear_db.


(** ** Vocabulary of the properties *)

(** The [(source, page)] pair a chunk carries. *)
Definition group_key (chunk : Document) : value * value :=
  (dict_get (metadata chunk) "source", dict_get (metadata chunk) "page").

(** A chunk of the data model: its source is a string and its page is an
    integer. *)
Definition of_data_model (chunk : Document) : bool :=
  match metadata chunk !! "source", metadata chunk !! "page" with
  | Some (VStr _), Some (VInt _) => true
  | _, _ => false
  end.

(** The identifier a chunk carries, if any. *)
Definition chunk_id (chunk : Document) : option value := metadata chunk !! "id".

Section Keys.
Context {K : Type} `{EqDecision K}.

(** The grouping invariant: equal keys are adjacent, so a key never
    comes back after another key. *)
Definition grouped (keys : list K) : Prop :=
  ∀ i j l k, (i < j < l)%nat →
    keys !! i = Some k → keys !! l = Some k → keys !! j = Some k.

(** The position of place [i] within its group: how many earlier places
    hold the key [k]. *)
Definition index_in_group (keys : list K) (i : nat) (k : K) : Z :=
  len (filter (λ k', k' = k) (take i keys)).

(** The index the scan holds at place [m]: one more than at the place
    before when the two keys agree, and 0 otherwise. *)
Fixpoint running_index (keys : list K) (m : nat) : Z :=
  match m with
  | O => 0
  | S m' =>
      if decide (keys !! m = keys !! m') then running_index keys m' + 1 else 0
  end.
End Keys.

(** The loop variables of [calculate_chunk_ids] after one more chunk. *)
Definition loop_step (st : option string * Z) (chunk : Document) : option string * Z :=
  let current_page_id := page_id_of chunk in
  (Some current_page_id,
   if decide (Some current_page_id = st.1) then st.2 + 1 else 0).

Definition loop_state (st : option string * Z) (chunks : list Document)
    : option string * Z :=
  foldl loop_step st chunks.

(** No [":"] in the string. *)
Fixpoint colon_free (s : string) : bool :=
  match s with
  | EmptyString => true
  | String c rest => if Ascii.eqb c ":" then false else colon_free rest
  end.

(** The identifier of a chunk as text. *)
Definition id_text (chunk : Document) : string :=
  match chunk_id chunk with
  | Some (VStr i) => i
  | _ => ""
  end.

(** The chunk carries a string as its identifier. *)
Definition has_id (chunk : Document) : Prop := ∃ i, chunk_id chunk = Some (VStr i).

(** The chunks whose identifier is not among [existing_ids]. *)
Definition fresh_chunks (existing_ids : gset string) (chunks_with_ids : list Document)
    : list Document :=
  filter (λ chunk, id_text chunk ∉ existing_ids) chunks_with_ids.

Section Runs.
Context {Vector : Type}.

(** No call of the journal ended in an exception. *)
Definition quiet (evs : list Event) : Prop :=
  ∀ e, ev_raised e ∉ evs.

(** The same, as a check that computes. *)
Definition quietb (evs : list Event) : bool :=
  forallb (λ ev, match ev with ev_raised _ => false | _ => true end) evs.

(** The upsert calls of a journal. *)
Definition is_add (ev : Event) : bool :=
  match ev with ev_db_add_documents _ _ => true | _ => false end.

(** The delete calls of a journal. *)
Definition is_delete (ev : Event) : bool :=
  match ev with ev_db_delete _ => true | _ => false end.

(** The calls that process documents or touch the store. *)
Definition is_processing (ev : Event) : bool :=
  match ev with
  | ev_PyPDFDirectoryLoader_load _ | ev_split_documents _
  | ev_get_embedding_function | ev_Chroma _ | ev_db_get
  | ev_db_add_documents _ _ | ev_db_delete _ => true
  | _ => false
  end.

(** A run keeps its journal in step with its outcome: it only appends,
    a run that returns has met no exception, and a run that raises has
    met this one exception and no other. *)
Definition traced {A} (m : M Vector A) : Prop :=
  ∀ st, ∃ evs, journal (m st).2 = journal st ++ evs ∧
    match (m st).1 with
    | Return _ => quiet evs
    | Raise e => ev_raised e ∈ evs ∧ ∀ e', ev_raised e' ∈ evs → e' = e
    end.

(** Whatever [m] returns, [m0] returns too, in the same state. *)
Definition returns_as {A} (m m0 : M Vector A) : Prop :=
  ∀ st a st', m st = (Return a, st') → m0 st = (Return a, st').

(** The world right after the reset step of [populate_database]. *)
Definition after_reset (reset : bool) (w : World Vector) : World Vector :=
  if reset then {| data_dir := data_dir w; chroma_dir := None |} else w.

(** The calls of the reset step. *)
Definition reset_calls (reset : bool) (w : World Vector) : list Event :=
  if reset then
    [ev_print "✨ Clearing Database"; ev_os_path_exists CHROMA_PATH]
    ++ match chroma_dir w with
       | Some _ => [ev_shutil_rmtree CHROMA_PATH]
       | None => []
       end
  else [].

(** The chunks [add_to_chroma] finds new in the world [w]: those whose
    identifier no record of the store has. *)
Definition new_chunks_of (chunks : list Document) (w : World Vector) : list Document :=
  fresh_chunks (dom (store_of w)) (calculate_chunk_ids chunks).

(** The calls of a run of [add_to_chroma] in which nothing raises. *)
Definition add_calls (chunks : list Document) (w : World Vector) : list Event :=
  let new_chunks := new_chunks_of chunks w in
  [ev_get_embedding_function; ev_Chroma CHROMA_PATH; ev_db_get;
   ev_print ("Number of existing documents in DB: "
             +:+ str_int (Z.of_nat (size (dom (store_of w)))))]
  ++ if decide (new_chunks = []) then
       [ev_print "✅ No new documents to add"]
     else
       [ev_print ("👉 Adding new documents: " +:+ str_int (len new_chunks));
        ev_db_add_documents new_chunks (id_text <$> new_chunks);
        ev_print "✅ Documents added and persisted automatically"].

(** The world such a run leaves. *)
Definition add_world (ef : string → Vector) (chunks : list Document)
    (w : World Vector) : World Vector :=
  let new_chunks := new_chunks_of chunks w in
  with_store
    (upsert_all {| persist_directory := CHROMA_PATH; db_embedding_function := ef |}
       new_chunks (id_text <$> new_chunks)) w.
End Runs.

(** The three failure results and the success result of
    [populate_database], and the result of [clear_chroma_database]. *)
Definition not_found_message : string :=
  "Data directory 'data' not found. Please create it and add PDF files.".

Definition no_pdf_message : string :=
  "No PDF documents found in 'data' directory.".

Definition failure_result (message : string) : gmap string value :=
  {[ "success" := VBool false; "message" := VStr message ]}.

Definition error_result (e : string) : gmap string value :=
  failure_result ("Error populating database: " +:+ e).

Definition success_result (documents chunks new_docs_added : Z) : gmap string value :=
  {[ "success" := VBool true;
     "message" := VStr (if decide (new_docs_added > 0)
                        then "Database populated successfully"
                        else "No new documents were added. All documents already exist in the database.");
     "documents_processed" := VInt documents;
     "chunks_created" := VInt chunks;
     "new_documents_added" := VInt new_docs_added ]}.

Definition cleared_result (deleted_count : Z) : gmap string value :=
  {[ "success" := VBool true;
     "message" := VStr (if decide (deleted_count > 0)
                        then "🗑️ Deleted " +:+ str_int deleted_count
                             +:+ " documents from Chroma database."
                        else "📂 No documents to delete in the Chroma database.");
     "chunks_deleted" := VInt deleted_count ]}.

(** ** Concrete inputs *)

Definition chunk_of (source : string) (page : Z) (text : string) : Document :=
  {| page_content := text;
     metadata := {[ "source" := VStr source; "page" := VInt page ]} |}.

(** Page 0 of [doc1.pdf] in three chunks, then page 0 of [doc2.pdf] in
    two. *)
Definition two_documents : list Document :=
  [chunk_of "doc1.pdf" 0 "one"; chunk_of "doc1.pdf" 0 "two";
   chunk_of "doc1.pdf" 0 "three";
   chunk_of "doc2.pdf" 0 "four"; chunk_of "doc2.pdf" 0 "five"].

(** Keys A, B, A. *)
Definition key_returns : list Document :=
  [chunk_of "a.pdf" 0 "one"; chunk_of "b.pdf" 0 "two"; chunk_of "a.pdf" 0 "three"].

Definition demo_embedding (text : string) : nat := String.length text.

(** Every page in two chunks. *)
Definition demo_splitter (documents : list Document) : list Document :=
  documents ≫= λ document,
    [document;
     {| page_content := "(continued)"; metadata := metadata document |}].

Definition demo_corpus : list Document :=
  [chunk_of "doc1.pdf" 0 "first page"; chunk_of "doc1.pdf" 1 "second page"].

Definition kept_record : StoreRecord nat :=
  {| rec_document := "an older text"; rec_metadata := ∅; rec_embedding := 13%nat |}.

(** Two pages to ingest and a store that holds one of their chunks. *)
Definition demo_world : World nat :=
  {| data_dir := Some demo_corpus;
     chroma_dir := Some {[ "doc1.pdf:0:0" := kept_record ]} |}.

(** A store, and no source data directory. *)
Definition no_data_world : World nat :=
  {| data_dir := None; chroma_dir := Some {[ "doc1.pdf:0:0" := kept_record ]} |}.

(** A source data directory without documents. *)
Definition empty_data_world : World nat :=
  {| data_dir := Some []; chroma_dir := None |}.

(** The store cannot be read. *)
Definition store_unreachable : Faults nat := λ ev w,
  match ev with
  | ev_db_get => Some (an_Exception "store unreachable", w)
  | _ => None
  end.

(** What a run returned, [default] if it raised. *)
Definition returned {A S : Type} (run : Outcome A * S) (default : A) : A :=
  match run.1 with
  | Return a => a
  | Raise _ => default
  end.

Definition demo_populate (reset : bool) (w : World nat)
    : Outcome (gmap string value) * State nat :=
  populate_db.populate_database demo_embedding demo_splitter no_faults reset (init w).

(** ** Further vocabulary and inputs *)


(** The chunks of [doc1.pdf], then those of [doc2.pdf], of the scenario. *)
Definition doc1_chunks : list Document := take 3 two_documents.
Definition doc2_chunks : list Document := drop 3 two_documents.

Section MoreRuns.
Context {Vector : Type}.

(** Every call a run enters in the journal satisfies [P]. *)
Definition calls_only {A} (P : Event → Prop) (m : M Vector A) : Prop :=
  ∀ st, ∃ evs, journal (m st).2 = journal st ++ evs ∧ Forall P evs.
End MoreRuns.

(** The calls [populate_database] can make: it never asks the store to
    delete, removes no directory but the store's, and that with [reset]
    only, loads from the data directory and opens the store at its path. *)
Definition populate_call (reset : bool) (ev : Event) : Prop :=
  match ev with
  | ev_db_delete _ => False
  | ev_shutil_rmtree path => path = CHROMA_PATH ∧ reset = true
  | ev_os_path_exists path => path = CHROMA_PATH ∧ reset = true ∨ path = DATA_PATH
  | ev_PyPDFDirectoryLoader_load path => path = DATA_PATH
  | ev_Chroma path => path = CHROMA_PATH
  | _ => True
  end.

(** The calls [clear_chroma_database] can make. *)
Definition clear_call (ev : Event) : Prop :=
  match ev with
  | ev_get_embedding_function | ev_db_get | ev_db_delete _ | ev_raised _ => True
  | ev_Chroma path => path = CHROMA_PATH
  | _ => False
  end.

Definition demo_clear (F : Faults nat) (w : World nat)
    : Outcome (gmap string value) * State nat :=
  clear_db.clear_chroma_database demo_embedding F (init w).

(** The directory cannot be removed. *)
Definition rmtree_denied : Faults nat := λ ev w,
  match ev with
  | ev_shutil_rmtree _ => Some (an_Exception "Permission denied", w)
  | _ => None
  end.

Definition demo_add (chunks : list Document) (w : World nat) : Outcome Z * State nat :=
  populate_db.add_to_chroma demo_embedding no_faults chunks (init w).

(** The chunks the splitter makes of the two pages. *)
Definition demo_chunks : list Document := demo_splitter demo_corpus.

(** A splitter that finds no text in the documents. *)
Definition no_text_splitter (documents : list Document) : list Document := [].

Section StopsAtRaise.
Context {Vector : Type}.

(** An exception ends the run: a run that raises has entered the
    exception last in the journal, after calls that all went well. *)
Definition stops_at_raise {A} (m : M Vector A) : Prop :=
  ∀ st, ∃ evs, journal (m st).2 = journal st ++ evs ∧
    match (m st).1 with
    | Return _ => quiet evs
    | Raise e => ∃ evs', evs = evs' ++ [ev_raised e] ∧ quiet evs'
    end.
End StopsAtRaise.

(** The user interrupts the run while the store is read: a
    [KeyboardInterrupt], which is no [Exception] and whose [str] is
    empty. *)
Definition KeyboardInterrupt : exn := {| is_Exception := false; exn_str := "" |}.

Definition interrupted : Faults nat := λ ev w,
  match ev with
  | ev_db_get => Some (KeyboardInterrupt, w)
  | _ => None
  end.

(** * Properties *)

(** ** Strings and decimal numerals *)

Section Strings.

Lemma append_nil_l (s : string) : "" +:+ s = s.
Proof. reflexivity. Qed.

Lemma append_cons (c : ascii) (a s : string) :
  String c a +:+ s = String c (a +:+ s).
Proof. reflexivity. Qed.


Lemma colon_free_append_colon (a b : string) :
  colon_free (a +:+ ":" +:+ b) = false.
Proof.
  induction a as [|x a IH].
  - reflexivity.
  - rewrite append_cons. simpl. by destruct (Ascii.eqb x ":").
Qed.

(** Cutting at the last colon: a colon-free suffix fixes the prefix. *)
Lemma append_colon_inj (a b da db : string) :
  colon_free da → colon_free db →
  a +:+ ":" +:+ da = b +:+ ":" +:+ db → a = b ∧ da = db.
Proof.
  intros Ha Hb. revert b.
  induction a as [|x a IH]; intros [|y b] E.
  - change (String ":" da = String ":" db) in E. by injection E.
  - change (String ":" da = String y (b +:+ ":" +:+ db)) in E.
    injection E as _ ->. by rewrite colon_free_append_colon in Ha.
  - change (String x (a +:+ ":" +:+ da) = String ":" db) in E.
    injection E as _ <-. by rewrite colon_free_append_colon in Hb.
  - change (String x (a +:+ ":" +:+ da) = String y (b +:+ ":" +:+ db)) in E.
    injection E as -> E. destruct (IH _ E) as [-> ->]. done.
Qed.

Lemma colon_free_uint (d : uint) : colon_free (NilEmpty.string_of_uint d).
Proof. induction d; simpl; done. Qed.

Lemma colon_free_str_int (n : Z) : colon_free (str_int n).
Proof.
  unfold str_int. destruct (Z.to_int n) as [d|d]; simpl.
  - destruct d; try done; apply (colon_free_uint (_ _)).
  - destruct d; try done; apply (colon_free_uint (_ _)).
Qed.

Lemma to_int_proper (n : Z) : Z.to_int n ≠ Pos Nil ∧ Z.to_int n ≠ Neg Nil.
Proof.
  destruct n as [|p|p]; simpl; split; try done;
    intros [= E]; by apply (DecimalPos.Unsigned.to_uint_nonnil p).
Qed.

Lemma str_int_inj (a b : Z) : str_int a = str_int b → a = b.
Proof.
  unfold str_int. intros E.
  apply DecimalZ.to_int_inj.
  destruct (to_int_proper a) as [? ?], (to_int_proper b) as [? ?].
  assert (Some (Z.to_int a) = Some (Z.to_int b)) as [= ->]; [|done].
  rewrite <- (NilZero.isi (Z.to_int a)), <- (NilZero.isi (Z.to_int b)) by done.
  by rewrite E.
Qed.

End Strings.

(** ** The running index of a scan *)

Section KeysFacts.
Context {K : Type} `{EqDecision K}.
Implicit Types (keys : list K) (k : K).

Lemma running_index_nonneg keys m : 0 ≤ running_index keys m.
Proof. induction m as [|m IH]; simpl; [lia|]. case_decide; lia. Qed.

(** The index is 0 exactly at the first place and where the key differs
    from the one before. *)
Lemma running_index_zero keys m :
  running_index keys (S m) = 0 ↔ keys !! S m ≠ keys !! m.
Proof.
  simpl. pose proof (running_index_nonneg keys m).
  case_decide; split; intros; (done || lia).
Qed.

Lemma index_in_group_0 keys k : index_in_group keys 0 k = 0.
Proof. by unfold index_in_group; rewrite take_0. Qed.

Lemma index_in_group_S keys i k k' :
  keys !! i = Some k' →
  index_in_group keys (S i) k
  = index_in_group keys i k + (if decide (k' = k) then 1 else 0).
Proof.
  intros Hi. unfold index_in_group, len.
  rewrite (take_S_r _ _ _ Hi), filter_app, length_app, filter_singleton; [|exact keys].
  case_decide; simpl; lia.
Qed.

Lemma index_in_group_mono keys i j k :
  (i ≤ j)%nat → index_in_group keys i k ≤ index_in_group keys j k.
Proof.
  induction 1 as [|j Hle IH]; [lia|].
  destruct (keys !! j) as [k'|] eqn:Hj.
  - rewrite (index_in_group_S _ _ _ _ Hj). case_decide; lia.
  - unfold index_in_group in *.
    apply lookup_ge_None in Hj.
    rewrite (take_ge keys (S j)) by lia. by rewrite (take_ge keys j) in IH by lia.
Qed.

(** A place counts for every later place of its key. *)
Lemma index_in_group_lt keys i j k :
  (i < j)%nat → keys !! i = Some k →
  index_in_group keys i k < index_in_group keys j k.
Proof.
  intros Hij Hi.
  pose proof (index_in_group_mono keys (S i) j k ltac:(lia)).
  rewrite (index_in_group_S _ _ _ _ Hi) in *. case_decide; [lia|done].
Qed.

Lemma index_in_group_none keys i k :
  (∀ j, (j < i)%nat → keys !! j ≠ Some k) → index_in_group keys i k = 0.
Proof.
  induction i as [|i IH]; intros Hno; [apply index_in_group_0|].
  destruct (keys !! i) as [k'|] eqn:Hi.
  - rewrite (index_in_group_S _ _ _ _ Hi), IH by (intros; apply Hno; lia).
    case_decide as E; [|done]. subst. by destruct (Hno i ltac:(lia)).
  - unfold index_in_group in *. apply lookup_ge_None in Hi.
    rewrite (take_ge keys (S i)) by lia.
    rewrite <- (take_ge keys i) by lia. apply IH. intros; apply Hno; lia.
Qed.

(** Under the grouping invariant the running index is the position in
    the group. *)
Lemma running_index_grouped keys m k :
  grouped keys → keys !! m = Some k →
  running_index keys m = index_in_group keys m k.
Proof.
  intros Hg. revert k. induction m as [|m IH]; intros k Hm.
  - by rewrite index_in_group_0.
  - destruct (keys !! m) as [k'|] eqn:Hm'.
    2:{ apply lookup_ge_None in Hm'. apply lookup_lt_Some in Hm. lia. }
    rewrite (index_in_group_S _ _ _ _ Hm'). simpl. rewrite Hm, Hm'.
    destruct (decide (k' = k)) as [->|Hne].
    + rewrite decide_True by done. by rewrite (IH k).
    + rewrite decide_False by congruence.
      rewrite index_in_group_none; [done|].
      intros j Hj Hk. apply Hne.
      pose proof (Hg j m (S m) k ltac:(lia) Hk Hm). congruence.
Qed.

(** Every place has the start of its run behind it: a place of the same
    key with index 0, and only that key in between. *)
Lemma run_start keys m k :
  keys !! m = Some k →
  ∃ s, (s ≤ m)%nat ∧ keys !! s = Some k ∧ running_index keys s = 0 ∧
       ∀ t, (s ≤ t ≤ m)%nat → keys !! t = Some k.
Proof.
  induction m as [|m IH]; intros Hm.
  - exists 0%nat. split_and!; [done..|]. intros t Ht. by replace t with 0%nat by lia.
  - destruct (decide (keys !! S m = keys !! m)) as [E|E].
    + destruct IH as (s & Hs & Hks & Hz & Hrun); [congruence|].
      exists s. split_and!; [lia|done..|].
      intros t Ht. destruct (decide (t = S m)) as [->|]; [done|]. apply Hrun; lia.
    + exists (S m). split_and!; [done..| |].
      * by apply running_index_zero.
      * intros t Ht. by replace t with (S m) by lia.
Qed.

(** When a key comes back after another key, two places start a run of
    that key. *)
Lemma not_grouped_two_starts keys i j l k k' :
  (i < j < l)%nat →
  keys !! i = Some k → keys !! j = Some k' → keys !! l = Some k → k' ≠ k →
  ∃ a b, (a < b)%nat ∧ keys !! a = Some k ∧ keys !! b = Some k ∧
         running_index keys a = 0 ∧ running_index keys b = 0.
Proof.
  intros Hijl Hi Hj Hl Hne.
  destruct (run_start keys i k Hi) as (a & Ha & Hka & Hza & _).
  destruct (run_start keys l k Hl) as (b & Hb & Hkb & Hzb & Hrun).
  exists a, b. split_and!; try done.
  destruct (decide (b ≤ j)%nat) as [Hbj|]; [|lia].
  pose proof (Hrun j ltac:(lia)). congruence.
Qed.

(** The running index only looks at which neighbours agree. *)
Lemma running_index_ext {K'} `{EqDecision K'} keys (keys' : list K') m :
  (∀ i, keys !! S i = keys !! i ↔ keys' !! S i = keys' !! i) →
  running_index keys m = running_index keys' m.
Proof.
  intros Hext. induction m as [|m IH]; [done|]. simpl.
  rewrite IH. destruct (decide (keys !! S m = keys !! m)) as [E|E].
  - rewrite decide_True; [done|]. by apply Hext.
  - rewrite decide_False; [done|]. by rewrite <- Hext.
Qed.
End KeysFacts.

(** ** Chunk-identifier assignment *)

Section ChunkIds.
Implicit Types (chunk : Document) (chunks : list Document).

Lemma chunk_id_set_id chunk i : chunk_id (set_id chunk i) = Some (VStr i).
Proof. apply lookup_insert_eq. Qed.

Lemma loop_state_snoc st chunks chunk :
  loop_state st (chunks ++ [chunk]) = loop_step (loop_state st chunks) chunk.
Proof. unfold loop_state. by rewrite foldl_app. Qed.

Lemma calculate_chunk_ids_loop_length last n chunks :
  length (calculate_chunk_ids_loop last n chunks) = length chunks.
Proof.
  revert last n. induction chunks as [|c rest IH]; intros; simpl; [done|].
  by rewrite IH.
Qed.

Lemma calculate_chunk_ids_length chunks :
  length (calculate_chunk_ids chunks) = length chunks.
Proof. apply calculate_chunk_ids_loop_length. Qed.

(** The chunk at place [i] gets its id from the loop variables as they
    stand after the [i] chunks before it. *)
Lemma calculate_chunk_ids_loop_lookup chunks last n i chunk :
  chunks !! i = Some chunk →
  calculate_chunk_ids_loop last n chunks !! i
  = Some (set_id chunk
      (page_id_of chunk +:+ ":" +:+
       str_int (loop_step (loop_state (last, n) (take i chunks)) chunk).2)).
Proof.
  revert last n i. induction chunks as [|c rest IH]; intros last n [|i] Hi;
    simplify_eq/=; [done|].
  by rewrite (IH _ _ _ Hi).
Qed.

Lemma loop_state_take chunks m chunk :
  chunks !! m = Some chunk →
  loop_state (None, 0) (take (S m) chunks)
  = (Some (page_id_of chunk), running_index (page_id_of <$> chunks) m).
Proof.
  revert chunk. induction m as [|m IH]; intros chunk Hm;
    rewrite (take_S_r _ _ _ Hm), loop_state_snoc.
  - by rewrite take_0.
  - destruct (chunks !! m) as [prev|] eqn:Hprev.
    2:{ apply lookup_ge_None in Hprev. apply lookup_lt_Some in Hm. lia. }
    rewrite (IH _ eq_refl). unfold loop_step. simpl.
    rewrite !list_lookup_fmap, Hm, Hprev. simpl.
    done.
Qed.

(** The scan, place by place. *)
Lemma calculate_chunk_ids_lookup chunks m chunk :
  chunks !! m = Some chunk →
  calculate_chunk_ids chunks !! m
  = Some (set_id chunk
      (page_id_of chunk +:+ ":" +:+ str_int (running_index (page_id_of <$> chunks) m))).
Proof.
  intros Hm. unfold calculate_chunk_ids.
  rewrite (calculate_chunk_ids_loop_lookup _ _ _ _ _ Hm).
  pose proof (loop_state_take _ _ _ Hm) as E.
  rewrite (take_S_r _ _ _ Hm), loop_state_snoc in E. by rewrite E.
Qed.

Lemma chunk_ids_lookup_inv chunks m c' :
  calculate_chunk_ids chunks !! m = Some c' →
  ∃ chunk, chunks !! m = Some chunk ∧
    c' = set_id chunk
      (page_id_of chunk +:+ ":" +:+ str_int (running_index (page_id_of <$> chunks) m)).
Proof.
  intros Hm. destruct (chunks !! m) as [chunk|] eqn:E.
  - rewrite (calculate_chunk_ids_lookup _ _ _ E) in Hm. exists chunk. by simplify_eq.
  - apply lookup_ge_None in E. apply lookup_lt_Some in Hm.
    rewrite calculate_chunk_ids_length in Hm. lia.
Qed.

(** Identifiers agree only when page ids and indices agree. *)
Lemma chunk_id_text_inj (p p' : string) (n n' : Z) :
  p +:+ ":" +:+ str_int n = p' +:+ ":" +:+ str_int n' → p = p' ∧ n = n'.
Proof.
  intros E. apply append_colon_inj in E as [-> E]; auto using colon_free_str_int.
  by apply str_int_inj in E.
Qed.

(** Whatever the metadata holds: when equal page ids are adjacent, the
    identifiers of two different places differ. *)
Lemma calculate_chunk_ids_unique_by_page_id chunks i j ci cj :
  grouped (page_id_of <$> chunks) → (i < j)%nat →
  calculate_chunk_ids chunks !! i = Some ci →
  calculate_chunk_ids chunks !! j = Some cj →
  chunk_id ci ≠ chunk_id cj.
Proof.
  intros Hg Hij (c & Hi & ->)%chunk_ids_lookup_inv (c' & Hj & ->)%chunk_ids_lookup_inv.
  rewrite !chunk_id_set_id. intros [= [Hp Hn]%chunk_id_text_inj].
  assert ((page_id_of <$> chunks) !! i = Some (page_id_of c)) as Hki
    by (by rewrite list_lookup_fmap, Hi).
  assert ((page_id_of <$> chunks) !! j = Some (page_id_of c)) as Hkj
    by (by rewrite list_lookup_fmap, Hj, Hp).
  rewrite (running_index_grouped _ _ _ Hg Hki),
    (running_index_grouped _ _ _ Hg Hkj) in Hn.
  pose proof (index_in_group_lt _ _ _ _ Hij Hki). lia.
Qed.

(** *** The textual key against the [(source, page)] pair *)

Lemma page_id_of_group_key chunk :
  page_id_of chunk = str (group_key chunk).1 +:+ ":" +:+ str (group_key chunk).2.
Proof. done. Qed.

Lemma of_data_model_key chunk :
  of_data_model chunk → ∃ s p, group_key chunk = (VStr s, VInt p).
Proof.
  unfold of_data_model, group_key, dict_get.
  destruct (metadata chunk !! "source") as [[]|]; try done.
  destruct (metadata chunk !! "page") as [[]|]; try done. eauto.
Qed.

(** On chunks of the data model the textual key stands for the pair. *)
Lemma page_id_of_inj c c' :
  of_data_model c → of_data_model c' →
  page_id_of c = page_id_of c' ↔ group_key c = group_key c'.
Proof.
  intros (s & p & Hc)%of_data_model_key (s' & p' & Hc')%of_data_model_key.
  rewrite !page_id_of_group_key, Hc, Hc'. simpl. split.
  - intros [-> E]%append_colon_inj; auto using colon_free_str_int.
    by apply str_int_inj in E as ->.
  - by intros [= -> ->].
Qed.

(** Outside the data model the text does not determine the pair: a
    missing source prints as the string ["None"] does. *)
Example page_id_of_outside_data_model :
  let c := {| page_content := ""; metadata := {[ "page" := VInt 0 ]} |} in
  let c' := chunk_of "None" 0 "" in
  page_id_of c = page_id_of c' ∧ group_key c ≠ group_key c'.
Proof. split; [reflexivity|]. intros E. vm_compute in E. discriminate E. Qed.

Lemma running_index_page_id chunks m :
  Forall of_data_model chunks →
  running_index (page_id_of <$> chunks) m = running_index (group_key <$> chunks) m.
Proof.
  intros Hdm. apply running_index_ext. intros i.
  rewrite !list_lookup_fmap.
  destruct (chunks !! S i) as [c|] eqn:Hc, (chunks !! i) as [c'|] eqn:Hc'; simpl;
    try done.
  rewrite Forall_lookup in Hdm.
  pose proof (page_id_of_inj c c' (Hdm _ _ Hc) (Hdm _ _ Hc')).
  split; intros E; f_equal; apply H; congruence.
Qed.

(** On chunks of the data model, grouping by pair is grouping by text. *)
Lemma grouped_page_id chunks :
  Forall of_data_model chunks →
  grouped (group_key <$> chunks) → grouped (page_id_of <$> chunks).
Proof.
  intros Hdm Hg i j l k Hijl. rewrite !list_lookup_fmap.
  destruct (chunks !! i) as [ci|] eqn:Hi; [|done].
  destruct (chunks !! l) as [cl|] eqn:Hl; [|done].
  destruct (chunks !! j) as [cj|] eqn:Hj.
  2:{ apply lookup_ge_None in Hj. apply lookup_lt_Some in Hl. lia. }
  simpl. intros [= <-] [= Hil]. f_equal.
  rewrite Forall_lookup in Hdm.
  apply page_id_of_inj in Hil; [|eauto..].
  apply page_id_of_inj; [eauto..|].
  pose proof (Hg i j l (group_key ci) Hijl) as Hkj.
  rewrite !list_lookup_fmap, Hi, Hj, Hl in Hkj. simpl in Hkj. rewrite Hil in Hkj.
  exact (inj Some _ _ (Hkj eq_refl eq_refl)).
Qed.

(** The scan over chunks of the data model, by [(source, page)] pairs. *)
Lemma calculate_chunk_ids_lookup_key chunks m chunk :
  Forall of_data_model chunks →
  chunks !! m = Some chunk →
  calculate_chunk_ids chunks !! m
  = Some (set_id chunk
      (page_id_of chunk +:+ ":" +:+ str_int (running_index (group_key <$> chunks) m))).
Proof.
  intros Hdm Hm. by rewrite (calculate_chunk_ids_lookup _ _ _ Hm), running_index_page_id.
Qed.


(** C2. Over chunks of the data model in which all chunks of one
    [(source, page)] key are adjacent, every chunk gets an identifier
    and no two places get the same one. *)
Theorem calculate_chunk_ids_unique chunks :
  Forall of_data_model chunks →
  grouped (group_key <$> chunks) →
  ∀ i j ci cj, i ≠ j →
    calculate_chunk_ids chunks !! i = Some ci →
    calculate_chunk_ids chunks !! j = Some cj →
    is_Some (chunk_id ci) ∧ is_Some (chunk_id cj) ∧ chunk_id ci ≠ chunk_id cj.
Proof.
  intros Hdm Hg%grouped_page_id; [|done].
  pose proof (calculate_chunk_ids_unique_by_page_id chunks) as Hlt.
  intros i j ci cj Hij Hi Hj. split_and!.
  - apply chunk_ids_lookup_inv in Hi as (? & _ & ->). by rewrite chunk_id_set_id.
  - apply chunk_ids_lookup_inv in Hj as (? & _ & ->). by rewrite chunk_id_set_id.
  - destruct (decide (i < j)%nat); [by eapply Hlt|].
    intros E. eapply (Hlt j i cj ci); [done|lia|done..].
Qed.

(** C10. When a [(source, page)] key comes back after a chunk of another
    key (keys A, B, A), two different places get the same identifier:
    each of them starts a run of that key, with index 0. *)
Theorem calculate_chunk_ids_collision chunks i j l ci cj cl :
  Forall of_data_model chunks →
  (i < j < l)%nat →
  chunks !! i = Some ci → chunks !! j = Some cj → chunks !! l = Some cl →
  group_key cl = group_key ci → group_key cj ≠ group_key ci →
  ∃ a b ca cb, a ≠ b ∧
    calculate_chunk_ids chunks !! a = Some ca ∧
    calculate_chunk_ids chunks !! b = Some cb ∧
    chunk_id ca = Some (VStr (page_id_of ci +:+ ":" +:+ "0")) ∧
    chunk_id cb = Some (VStr (page_id_of ci +:+ ":" +:+ "0")).
Proof.
  intros Hdm Hijl Hi Hj Hl Hil Hji.
  assert ((group_key <$> chunks) !! i = Some (group_key ci)) as Hki
    by (by rewrite list_lookup_fmap, Hi).
  assert ((group_key <$> chunks) !! j = Some (group_key cj)) as Hkj
    by (by rewrite list_lookup_fmap, Hj).
  assert ((group_key <$> chunks) !! l = Some (group_key ci)) as Hkl
    by (by rewrite list_lookup_fmap, Hl, <- Hil).
  destruct (not_grouped_two_starts _ i j l _ _ Hijl Hki Hkj Hkl Hji)
    as (a & b & Hab & Ha & Hb & Hza & Hzb).
  clear Hki Hkj Hkl.
  rewrite list_lookup_fmap in Ha, Hb.
  destruct (chunks !! a) as [ca|] eqn:Hca; [|done].
  destruct (chunks !! b) as [cb|] eqn:Hcb; [|done].
  apply (inj Some) in Ha, Hb.
  exists a, b, (set_id ca (page_id_of ca +:+ ":" +:+ "0")),
    (set_id cb (page_id_of cb +:+ ":" +:+ "0")).
  split_and!; [lia|..].
  - by rewrite (calculate_chunk_ids_lookup_key _ _ _ Hdm Hca), Hza.
  - by rewrite (calculate_chunk_ids_lookup_key _ _ _ Hdm Hcb), Hzb.
  - by rewrite chunk_id_set_id, !page_id_of_group_key, Ha.
  - by rewrite chunk_id_set_id, !page_id_of_group_key, Hb.
Qed.

End ChunkIds.

(** ** Runs: outcomes, journals, and runs without exceptions *)

(** Going through the members of a list given by its elements. *)
Ltac elem_of_inv H :=
  repeat first
    [ apply elem_of_nil in H; destruct H
    | apply elem_of_app in H as [H|H]
    | apply elem_of_cons in H as [H|H]; [try discriminate H|] ].

Section RunFacts.
Context {Vector : Type}.
Implicit Types (st : State Vector) (F : Faults Vector) (w : World Vector).

Lemma bind_Return {A B} (m : M Vector A) (k : A → M Vector B) st a st1 :
  m st = (Return a, st1) → bind m k st = k a st1.
Proof. unfold bind. by intros ->. Qed.

Lemma bind_inv {A B} (m : M Vector A) (k : A → M Vector B) st b st' :
  bind m k st = (Return b, st') →
  ∃ a st1, m st = (Return a, st1) ∧ k a st1 = (Return b, st').
Proof.
  unfold bind. destruct (m st) as [[a|msg] st1]; [|done]. intros E. by exists a, st1.
Qed.

Lemma call_no_faults {A} (ev : Event) (nominal : World Vector → A * World Vector) st :
  call no_faults ev nominal st
  = (Return (nominal (world st)).1,
     {| world := (nominal (world st)).2; journal := journal st ++ [ev] |}).
Proof. unfold call, no_faults. by destruct (nominal (world st)). Qed.

(** *** Journals *)

Lemma quiet_nil : quiet [].
Proof. intros msg. apply not_elem_of_nil. Qed.

Lemma quietb_quiet evs : quietb evs = true → quiet evs.
Proof.
  unfold quietb. rewrite forallb_forall. intros Hall msg Hin.
  apply list_elem_of_In in Hin. by apply Hall in Hin.
Qed.

Lemma quiet_app evs1 evs2 : quiet evs1 → quiet evs2 → quiet (evs1 ++ evs2).
Proof. intros H1 H2 msg [?|?]%elem_of_app; [by eapply H1|by eapply H2]. Qed.

Lemma traced_ret {A} (a : A) : traced (Vector:=Vector) (ret a).
Proof. intros st. exists []. simpl. rewrite app_nil_r. auto using quiet_nil. Qed.

(** The continuation only matters at the values [m] can return. *)
Lemma traced_bind {A B} (m : M Vector A) (k : A → M Vector B) :
  traced m → (∀ a st st1, m st = (Return a, st1) → traced (k a)) →
  traced (bind m k).
Proof.
  intros Hm Hk st. destruct (Hm st) as (evs1 & Hj1 & Ho1).
  unfold bind. destruct (m st) as [[a|msg] st1] eqn:Hrun; simpl in *.
  - destruct (Hk a st st1 Hrun st1) as (evs2 & Hj2 & Ho2).
    exists (evs1 ++ evs2). rewrite Hj2, Hj1, app_assoc. split; [done|].
    destruct (k a st1).1 as [b|msg].
    + by apply quiet_app.
    + destruct Ho2 as [Hin Hall]. split; [apply elem_of_app; auto|].
      intros msg' [Hin'|?]%elem_of_app; [by destruct (Ho1 msg')|auto].
  - by exists evs1.
Qed.

Lemma traced_call {A} F (ev : Event) (nominal : World Vector → A * World Vector) :
  (∀ msg, ev ≠ ev_raised msg) → traced (call F ev nominal).
Proof.
  intros Hev st. unfold call.
  destruct (F ev (world st)) as [[msg w']|]; simpl.
  - exists [ev; ev_raised msg]. split; [done|]. split; [set_solver|].
    intros msg' Hin. set_unfold in Hin. destruct Hin as [E|[E|[]]]; [|congruence].
    by destruct (Hev msg').
  - destruct (nominal (world st)) as [a w']. exists [ev]. split; [done|].
    intros msg Hin. set_unfold in Hin. destruct Hin as [E|[]]. by destruct (Hev msg).
Qed.

Lemma traced_os_path_exists path : traced (Vector:=Vector) (os_path_exists path).
Proof.
  intros st. exists [ev_os_path_exists path]. split; [done|].
  intros msg Hin. set_unfold in Hin. by destruct Hin as [E|[]].
Qed.

(** *** Runs that return *)

Lemma returns_as_refl {A} (m : M Vector A) : returns_as m m.
Proof. by intros st a st'. Qed.

Lemma returns_as_bind {A B} (m m0 : M Vector A) (k k0 : A → M Vector B) :
  returns_as m m0 → (∀ a, returns_as (k a) (k0 a)) →
  returns_as (bind m k) (bind m0 k0).
Proof.
  intros Hm Hk st b st' (a & st1 & H1 & H2)%bind_inv.
  rewrite (bind_Return _ _ _ _ _ (Hm _ _ _ H1)). by apply Hk.
Qed.

Lemma returns_as_call {A} F (ev : Event) (nominal : World Vector → A * World Vector) :
  returns_as (call F ev nominal) (call no_faults ev nominal).
Proof.
  intros st a st'. unfold call, no_faults.
  by destruct (F ev (world st)) as [[msg w']|].
Qed.

End RunFacts.

Create HintDb runs.
#[local] Hint Resolve traced_ret traced_bind traced_call traced_os_path_exists : runs.
#[local] Hint Resolve returns_as_refl returns_as_bind returns_as_call : runs.

(** ** The store *)

Section StoreFacts.
Context {Vector : Type}.
Implicit Types (w : World Vector) (store : gmap string (StoreRecord Vector)).
Implicit Types (db : Db Vector).

Lemma store_of_with_store f w : store_of (with_store f w) = f (store_of w).
Proof. done. Qed.

Lemma store_ids_dom w : list_to_set (store_ids w) =@{gset string} dom (store_of w).
Proof.
  unfold store_ids. apply set_eq. intros i.
  rewrite elem_of_list_to_set, elem_of_dom, list_elem_of_fmap. split.
  - intros ([i' rec] & -> & Hin). apply elem_of_map_to_list in Hin. by exists rec.
  - intros [rec Hrec]. exists (i, rec). split; [done|]. by apply elem_of_map_to_list.
Qed.

Lemma store_ids_elem_of w i : i ∈ store_ids w ↔ is_Some (store_of w !! i).
Proof. by rewrite <- elem_of_dom, <- store_ids_dom, elem_of_list_to_set. Qed.

Lemma store_ids_length w : length (store_ids w) = size (store_of w).
Proof. unfold store_ids. by rewrite length_fmap, length_map_to_list. Qed.

Lemma store_ids_NoDup w : NoDup (store_ids w).
Proof. apply NoDup_fst_map_to_list. Qed.

Lemma store_ids_nil w : store_ids w = [] ↔ store_of w = ∅.
Proof.
  unfold store_ids. split.
  - intros E%fmap_nil_inv. by apply map_to_list_empty_iff.
  - intros ->. by rewrite map_to_list_empty.
Qed.

(** Deleting a batch removes its identifiers and nothing else. *)
Lemma delete_all_lookup ids store i :
  delete_all ids store !! i = if decide (i ∈ ids) then None else store !! i.
Proof.
  induction ids as [|j ids IH]; [done|]. simpl.
  - destruct (decide (j = i)) as [->|Hne].
    + rewrite lookup_delete_eq. rewrite decide_True; [done|]. apply elem_of_cons; auto.
    + rewrite lookup_delete_ne, IH by done.
      destruct (decide (i ∈ ids)).
      * rewrite decide_True; [done|]. apply elem_of_cons; auto.
      * rewrite decide_False; [done|]. by intros [?|?]%elem_of_cons.
Qed.

Lemma delete_all_store_ids w : delete_all (store_ids w) (store_of w) = ∅.
Proof.
  apply map_eq. intros i. rewrite delete_all_lookup, lookup_empty.
  case_decide as Hin; [done|].
  rewrite store_ids_elem_of in Hin. by apply eq_None_not_Some.
Qed.

(** An upsert leaves the records of other identifiers alone. *)
Lemma upsert_all_lookup_other db documents ids store i :
  i ∉ ids → upsert_all db documents ids store !! i = store !! i.
Proof.
  unfold upsert_all. revert documents store.
  induction ids as [|j ids IH]; intros [|c documents] store Hin; simpl; try done.
  rewrite IH by (intros ?; apply Hin; apply elem_of_cons; auto).
  apply lookup_insert_ne. intros ->. apply Hin, elem_of_cons; auto.
Qed.

(** Every record after an upsert was there before or comes from a
    document of the batch, stored under the identifier given for it. *)
Lemma upsert_all_lookup_Some db documents ids store i rec :
  upsert_all db documents ids store !! i = Some rec →
  store !! i = Some rec ∨
  ∃ n chunk, ids !! n = Some i ∧ documents !! n = Some chunk ∧ rec = record_of db chunk.
Proof.
  unfold upsert_all. revert documents store.
  induction ids as [|j ids IH]; intros [|c documents] store; simpl; auto.
  intros [Hold|(n & chunk & ? & ? & ?)]%IH.
  - destruct (decide (j = i)) as [->|Hne].
    + rewrite lookup_insert_eq in Hold. right. exists 0%nat, c. by simplify_eq.
    + rewrite lookup_insert_ne in Hold by done. auto.
  - right. by exists (S n), chunk.
Qed.

(** Every identifier of the batch has a record afterwards. *)
Lemma upsert_all_lookup_batch db documents ids store i :
  length ids = length documents → i ∈ ids →
  is_Some (upsert_all db documents ids store !! i).
Proof.
  unfold upsert_all. revert documents store.
  induction ids as [|j ids IH]; intros [|c documents] store Hlen Hin;
    try done; [by apply elem_of_nil in Hin|].
  simpl. destruct (decide (i ∈ ids)) as [Hi|Hi].
  - apply IH; [|done]. simpl in Hlen. lia.
  - apply elem_of_cons in Hin as [->|?]; [|done].
    fold (upsert_all db documents ids (<[j:=record_of db c]> store)).
    rewrite upsert_all_lookup_other by done. rewrite lookup_insert_eq. eauto.
Qed.

(** An upsert never removes a record's identifier. *)
Lemma upsert_all_lookup_is_Some db documents ids store i :
  is_Some (store !! i) → is_Some (upsert_all db documents ids store !! i).
Proof.
  unfold upsert_all. revert documents store.
  induction ids as [|j ids IH]; intros [|c documents] store Hi; simpl; try done.
  apply IH. destruct (decide (j = i)) as [->|Hne].
  - rewrite lookup_insert_eq. eauto.
  - by rewrite lookup_insert_ne.
Qed.
End StoreFacts.

(** ** Runs of [populate_db.py] *)

Section PopulateFacts.
Context {Vector : Type}.
Variable embedding_function : string → Vector.
Variable text_splitter : list Document → list Document.
Implicit Types (st : State Vector) (F : Faults Vector) (w : World Vector).
Implicit Types (chunk : Document) (chunks : list Document).

#[local] Abbreviation add_to_chroma := (populate_db.add_to_chroma embedding_function).
#[local] Abbreviation clear_database := (populate_db.clear_database (Vector:=Vector)).
#[local] Abbreviation populate_database_try :=
  (populate_db.populate_database_try embedding_function text_splitter).
#[local] Abbreviation populate_database :=
  (populate_db.populate_database embedding_function text_splitter).

(** *** The two loops over identified chunks *)

Lemma calculate_chunk_ids_has_id chunks : Forall has_id (calculate_chunk_ids chunks).
Proof.
  apply Forall_lookup. intros m c (chunk & _ & ->)%chunk_ids_lookup_inv.
  eexists. apply chunk_id_set_id.
Qed.

Lemma metadata_id_has_id chunk st :
  has_id chunk →
  populate_db.metadata_id (Vector:=Vector) chunk st = (Return (id_text chunk), st).
Proof.
  intros [i Hi]. unfold populate_db.metadata_id, id_text.
  unfold chunk_id in *. by rewrite Hi.
Qed.

Lemma new_chunks_loop_has_id existing_ids chunks st :
  Forall has_id chunks →
  populate_db.new_chunks_loop (Vector:=Vector) existing_ids chunks st
  = (Return (fresh_chunks existing_ids chunks), st).
Proof.
  induction 1 as [|chunk chunks Hid _ IH]; [done|].
  simpl. rewrite (bind_Return _ _ _ _ _ (metadata_id_has_id _ _ Hid)).
  rewrite (bind_Return _ _ _ _ _ IH). unfold ret, fresh_chunks.
  rewrite filter_cons. by destruct (decide (id_text chunk ∉ existing_ids)).
Qed.

Lemma ids_of_has_id chunks st :
  Forall has_id chunks →
  populate_db.ids_of (Vector:=Vector) chunks st = (Return (id_text <$> chunks), st).
Proof.
  induction 1 as [|chunk chunks Hid _ IH]; [done|].
  simpl. rewrite (bind_Return _ _ _ _ _ (metadata_id_has_id _ _ Hid)).
  by rewrite (bind_Return _ _ _ _ _ IH).
Qed.

Lemma fresh_chunks_has_id existing_ids chunks :
  Forall has_id chunks → Forall has_id (fresh_chunks existing_ids chunks).
Proof.
  rewrite !Forall_forall. intros H chunk [_ Hin]%list_elem_of_filter. by apply H.
Qed.

Lemma new_chunks_loop_inv existing_ids chunks st new_chunks st1 :
  populate_db.new_chunks_loop (Vector:=Vector) existing_ids
    (calculate_chunk_ids chunks) st = (Return new_chunks, st1) →
  new_chunks = fresh_chunks existing_ids (calculate_chunk_ids chunks) ∧ st1 = st.
Proof.
  rewrite new_chunks_loop_has_id by apply calculate_chunk_ids_has_id.
  by intros [= <- <-].
Qed.

Lemma traced_new_chunks_loop existing_ids chunks :
  traced (populate_db.new_chunks_loop (Vector:=Vector) existing_ids
            (calculate_chunk_ids chunks)).
Proof.
  intros st. rewrite new_chunks_loop_has_id by apply calculate_chunk_ids_has_id.
  exists []. simpl. rewrite app_nil_r. auto using quiet_nil.
Qed.

Lemma traced_ids_of chunks :
  Forall has_id chunks → traced (populate_db.ids_of (Vector:=Vector) chunks).
Proof.
  intros Hid st. rewrite ids_of_has_id by done.
  exists []. simpl. rewrite app_nil_r. auto using quiet_nil.
Qed.

(** *** [add_to_chroma] *)

Lemma traced_add_to_chroma F chunks : traced (add_to_chroma F chunks).
Proof.
  unfold populate_db.add_to_chroma, populate_db.get_embedding_function,
    Chroma, db_get, print, db_add_documents.
  apply traced_bind; [by apply traced_call|intros ef _ _ _].
  apply traced_bind; [by apply traced_call|intros db _ _ _].
  apply traced_bind; [by apply traced_call|intros existing_items _ _ _].
  apply traced_bind; [by apply traced_call|intros _ _ _ _].
  apply traced_bind; [apply traced_new_chunks_loop|].
  intros new_chunks st st1 [-> _]%new_chunks_loop_inv.
  case_decide.
  - apply traced_bind; [by apply traced_call|intros _ _ _ _].
    apply traced_bind;
      [apply traced_ids_of, fresh_chunks_has_id, calculate_chunk_ids_has_id|].
    intros ids _ _ _.
    apply traced_bind; [by apply traced_call|intros _ _ _ _].
    apply traced_bind; [by apply traced_call|intros _ _ _ _].
    apply traced_ret.
  - apply traced_bind; [by apply traced_call|intros _ _ _ _]. apply traced_ret.
Qed.

Lemma add_to_chroma_returns_as F chunks :
  returns_as (add_to_chroma F chunks) (add_to_chroma no_faults chunks).
Proof.
  unfold populate_db.add_to_chroma, populate_db.get_embedding_function,
    Chroma, db_get, print, db_add_documents.
  repeat first
    [ apply returns_as_call
    | apply returns_as_refl
    | apply returns_as_bind; [|intros ?]
    | case_decide ].
Qed.

(** A run of [add_to_chroma] in which nothing raises: the count it
    returns, the world it leaves and the calls it makes. *)
Lemma add_to_chroma_no_faults chunks st :
  add_to_chroma no_faults chunks st
  = (Return (len (new_chunks_of chunks (world st))),
     {| world := add_world embedding_function chunks (world st);
        journal := journal st ++ add_calls chunks (world st) |}).
Proof.
  unfold populate_db.add_to_chroma, populate_db.get_embedding_function,
    Chroma, db_get, print, db_add_documents.
  rewrite (bind_Return _ _ _ _ _ (call_no_faults _ _ _)).
  rewrite (bind_Return _ _ _ _ _ (call_no_faults _ _ _)).
  rewrite (bind_Return _ _ _ _ _ (call_no_faults _ _ _)).
  rewrite (bind_Return _ _ _ _ _ (call_no_faults _ _ _)).
  simpl. rewrite store_ids_dom, store_of_with_store.
  rewrite (bind_Return _ _ _ _ _ (new_chunks_loop_has_id _ _ _
             (calculate_chunk_ids_has_id _))).
  unfold add_calls, add_world, new_chunks_of. simpl.
  pose proof (fresh_chunks_has_id (dom (store_of (world st))) _
                (calculate_chunk_ids_has_id chunks)) as Hid.
  destruct (fresh_chunks (dom (store_of (world st))) (calculate_chunk_ids chunks))
    as [|chunk new_chunks] eqn:Hnew.
  - rewrite decide_False by (intros E; by apply E).
    rewrite (bind_Return _ _ _ _ _ (call_no_faults _ _ _)). simpl.
    unfold ret. by rewrite <- !app_assoc.
  - rewrite decide_True by (unfold len; simpl; lia).
    rewrite (bind_Return _ _ _ _ _ (call_no_faults _ _ _)).
    rewrite (bind_Return _ _ _ _ _ (ids_of_has_id _ _ Hid)).
    rewrite (bind_Return _ _ _ _ _ (call_no_faults _ _ _)).
    rewrite (bind_Return _ _ _ _ _ (call_no_faults _ _ _)).
    simpl. unfold ret. by rewrite <- !app_assoc.
Qed.

(** *** [clear_database] *)

Lemma traced_clear_database F : traced (populate_db.clear_database F).
Proof.
  unfold populate_db.clear_database, shutil_rmtree.
  apply traced_bind; [apply traced_os_path_exists|intros [] _ _ _].
  - by apply traced_call.
  - apply traced_ret.
Qed.

Lemma clear_database_returns_as F :
  returns_as (populate_db.clear_database F) (populate_db.clear_database no_faults).
Proof.
  unfold populate_db.clear_database, shutil_rmtree.
  apply returns_as_bind; [apply returns_as_refl|intros []].
  - apply returns_as_call.
  - apply returns_as_refl.
Qed.

Lemma clear_database_no_faults st :
  populate_db.clear_database no_faults st
  = (Return (),
     {| world := after_reset true (world st);
        journal := journal st ++ ev_os_path_exists CHROMA_PATH
                   :: match chroma_dir (world st) with
                      | Some _ => [ev_shutil_rmtree CHROMA_PATH]
                      | None => []
                      end |}).
Proof.
  unfold populate_db.clear_database, shutil_rmtree, bind, os_path_exists. simpl.
  destruct st as [[data [store|]] jr]; simpl.
  - rewrite call_no_faults. simpl. by rewrite <- app_assoc.
  - done.
Qed.

(** *** [populate_database] *)

Lemma traced_populate_database_try F reset : traced (populate_database_try F reset).
Proof.
  unfold populate_db.populate_database_try, populate_db.load_documents,
    populate_db.split_documents, PyPDFDirectoryLoader_load, print.
  apply traced_bind.
  { destruct reset; [|apply traced_ret].
    apply traced_bind; [by apply traced_call|intros _ _ _ _].
    apply traced_clear_database. }
  intros _ _ _ _.
  apply traced_bind; [apply traced_os_path_exists|intros [] _ _ _]; simpl;
    [|apply traced_ret].
  apply traced_bind; [by apply traced_call|intros documents _ _ _].
  case_decide; [apply traced_ret|].
  apply traced_bind; [by apply traced_call|intros chunks _ _ _].
  apply traced_bind; [apply traced_add_to_chroma|intros n _ _ _].
  apply traced_ret.
Qed.

Lemma populate_database_try_returns_as F reset :
  returns_as (populate_database_try F reset) (populate_database_try no_faults reset).
Proof.
  unfold populate_db.populate_database_try, populate_db.load_documents,
    populate_db.split_documents, PyPDFDirectoryLoader_load, print.
  apply returns_as_bind.
  { destruct reset; [|apply returns_as_refl].
    apply returns_as_bind; [apply returns_as_call|intros _].
    apply clear_database_returns_as. }
  intros _.
  apply returns_as_bind; [apply returns_as_refl|intros []]; simpl;
    [|apply returns_as_refl].
  apply returns_as_bind; [apply returns_as_call|intros documents].
  case_decide; [apply returns_as_refl|].
  apply returns_as_bind; [apply returns_as_call|intros chunks].
  apply returns_as_bind; [apply add_to_chroma_returns_as|intros n].
  apply returns_as_refl.
Qed.

(** The reset step when nothing raises. *)
Lemma reset_step_no_faults (reset : bool) st :
  (if reset then
     bind (print no_faults "✨ Clearing Database")
       (λ _, populate_db.clear_database no_faults)
   else ret ()) st
  = (Return (),
     {| world := after_reset reset (world st);
        journal := journal st ++ reset_calls reset (world st) |}).
Proof.
  destruct reset; simpl.
  - unfold print. rewrite (bind_Return _ _ _ _ _ (call_no_faults _ _ _)).
    rewrite clear_database_no_faults. simpl. by rewrite <- app_assoc.
  - unfold ret. rewrite app_nil_r. by destruct st.
Qed.

(** A run of the body of [populate_database] in which nothing raises:
    the result, the world it leaves and the calls it makes. *)
Lemma populate_database_try_no_faults reset st :
  populate_database_try no_faults reset st
  = let w1 := after_reset reset (world st) in
    let j1 := journal st ++ reset_calls reset (world st)
              ++ [ev_os_path_exists DATA_PATH] in
    match data_dir (world st) with
    | None =>
        (Return (failure_result not_found_message), {| world := w1; journal := j1 |})
    | Some documents =>
        if decide (documents = []) then
          (Return (failure_result no_pdf_message),
           {| world := w1;
              journal := j1 ++ [ev_PyPDFDirectoryLoader_load DATA_PATH] |})
        else
          let chunks := text_splitter documents in
          (Return (success_result (len documents) (len chunks)
                     (len (new_chunks_of chunks w1))),
           {| world := add_world embedding_function chunks w1;
              journal := j1 ++ [ev_PyPDFDirectoryLoader_load DATA_PATH;
                                ev_split_documents documents]
                         ++ add_calls chunks w1 |})
    end.
Proof.
  unfold populate_db.populate_database_try.
  rewrite (bind_Return _ _ _ _ _ (reset_step_no_faults reset st)).
  assert (data_dir (after_reset reset (world st)) = data_dir (world st)) as Hdata
    by (by destruct reset).
  unfold bind at 1. unfold os_path_exists. simpl. rewrite Hdata.
  destruct (data_dir (world st)) as [documents|] eqn:Hdocs; simpl.
  - unfold populate_db.load_documents, PyPDFDirectoryLoader_load.
    rewrite (bind_Return _ _ _ _ _ (call_no_faults _ _ _)). simpl. rewrite Hdata.
    simpl. destruct (decide (documents = [])) as [->|Hne].
    + unfold ret. by rewrite <- !app_assoc.
    + unfold populate_db.split_documents.
      rewrite (bind_Return _ _ _ _ _ (call_no_faults _ _ _)). simpl.
      rewrite (bind_Return _ _ _ _ _ (add_to_chroma_no_faults _ _)). simpl.
      unfold ret. by rewrite <- !app_assoc.
  - unfold ret. by rewrite <- !app_assoc.
Qed.

(** The three ways a run of [populate_database] ends: its body returns,
    its body raises an [Exception], which the handler turns into the
    error result, or its body raises another exception, which goes on. *)
Lemma populate_database_cases F reset st :
  (∃ r st', populate_database_try F reset st = (Return r, st') ∧
            populate_database F reset st = (Return r, st')) ∨
  (∃ e st', populate_database_try F reset st = (Raise e, st') ∧
            is_Exception e = true ∧
            populate_database F reset st
            = (Return (error_result (exn_str e)), st')) ∨
  (∃ e st', populate_database_try F reset st = (Raise e, st') ∧
            is_Exception e = false ∧
            populate_database F reset st = (Raise e, st')).
Proof.
  unfold populate_db.populate_database, try_except.
  destruct (populate_database_try F reset st) as [[r|e] st']; [left; eauto|].
  destruct (is_Exception e) eqn:He; [right; left|right; right];
    exists e, st'; by rewrite ?He.
Qed.

(** A run of [populate_database] whose journal is quiet went through the
    body without an exception, as the run in which nothing raises does. *)
Lemma populate_database_quiet F reset w r st' :
  populate_database F reset (init w) = (Return r, st') →
  quiet (journal st') →
  populate_database_try no_faults reset (init w) = (Return r, st').
Proof.
  intros Hrun Hquiet. apply (populate_database_try_returns_as F).
  destruct (populate_database_cases F reset (init w))
    as [(r' & st1 & Htry & Hpop)|[(e & st1 & Htry & _ & Hpop)
       |(e & st1 & Htry & _ & Hpop)]];
    rewrite Hpop in Hrun; simplify_eq; [done|].
  destruct (traced_populate_database_try F reset (init w)) as (evs & Hj & Ho).
  rewrite Htry in Hj, Ho. simpl in *. subst evs. by destruct (Hquiet e), Ho.
Qed.

(** A run of [populate_database] that reports success did so too. *)
Lemma populate_database_success F reset w r st' :
  populate_database F reset (init w) = (Return r, st') →
  r !! "success" = Some (VBool true) →
  populate_database_try no_faults reset (init w) = (Return r, st').
Proof.
  intros Hrun Hsuccess. apply (populate_database_try_returns_as F).
  destruct (populate_database_cases F reset (init w))
    as [(r' & st1 & Htry & Hpop)|[(e & st1 & Htry & _ & Hpop)
       |(e & st1 & Htry & _ & Hpop)]];
    rewrite Hpop in Hrun; by simplify_eq.
Qed.

End PopulateFacts.

(** ** Ingestion *)

Section Ingestion.
Context {Vector : Type}.
Variable embedding_function : string → Vector.
Variable text_splitter : list Document → list Document.
Implicit Types (st : State Vector) (F : Faults Vector) (w : World Vector).

#[local] Abbreviation populate_database_try :=
  (populate_db.populate_database_try embedding_function text_splitter).
#[local] Abbreviation populate_database :=
  (populate_db.populate_database embedding_function text_splitter).
#[local] Abbreviation db :=
  {| persist_directory := CHROMA_PATH; db_embedding_function := embedding_function |}.

Lemma populate_database_of_try F reset st r st' :
  populate_database_try F reset st = (Return r, st') →
  populate_database F reset st = (Return r, st').
Proof. unfold populate_db.populate_database, try_except. by intros ->. Qed.

(** What a run that reports success went through. *)
Lemma populate_database_success_inv F reset w r st' :
  populate_database F reset (init w) = (Return r, st') →
  r !! "success" = Some (VBool true) →
  ∃ documents, data_dir w = Some documents ∧ documents ≠ [] ∧
    let w1 := after_reset reset w in
    let chunks := text_splitter documents in
    r = success_result (len documents) (len chunks) (len (new_chunks_of chunks w1)) ∧
    world st' = add_world embedding_function chunks w1 ∧
    journal st' = reset_calls reset w
                  ++ [ev_os_path_exists DATA_PATH;
                      ev_PyPDFDirectoryLoader_load DATA_PATH;
                      ev_split_documents documents]
                  ++ add_calls chunks w1.
Proof.
  intros Hrun Hsuccess.
  pose proof (populate_database_success _ _ _ _ _ _ _ Hrun Hsuccess) as Htry.
  rewrite populate_database_try_no_faults in Htry. simpl in Htry.
  destruct (data_dir w) as [documents|]; [|by simplify_eq].
  destruct (decide (documents = [])); [by simplify_eq|].
  exists documents. injection Htry as <- <-. simpl.
  split_and!; try done. by rewrite <- !app_assoc.
Qed.

Lemma add_world_store chunks w :
  store_of (add_world embedding_function chunks w)
  = upsert_all db (new_chunks_of chunks w) (id_text <$> new_chunks_of chunks w)
      (store_of w).
Proof. done. Qed.

Lemma add_world_data_dir chunks w :
  data_dir (add_world embedding_function chunks w) = data_dir w.
Proof. done. Qed.

Lemma after_reset_data_dir reset w : data_dir (after_reset reset w) = data_dir w.
Proof. by destruct reset. Qed.

(** Every new chunk has a record after the upsert. *)
Lemma add_world_new_chunk chunks w chunk :
  chunk ∈ new_chunks_of chunks w →
  is_Some (store_of (add_world embedding_function chunks w) !! id_text chunk).
Proof.
  intros Hin. rewrite add_world_store.
  apply upsert_all_lookup_batch; [by rewrite length_fmap|].
  apply list_elem_of_fmap. eauto.
Qed.

(** After the upsert no chunk of the same split is new. *)
Lemma new_chunks_of_add_world chunks w :
  new_chunks_of chunks (add_world embedding_function chunks w) = [].
Proof.
  unfold new_chunks_of at 1, fresh_chunks.
  destruct (filter _ _) as [|chunk rest] eqn:E; [done|].
  assert (chunk ∈ filter
            (λ chunk, id_text chunk
                      ∉ dom (store_of (add_world embedding_function chunks w)))
            (calculate_chunk_ids chunks)) as [Hnot Hin]%list_elem_of_filter
    by (rewrite E; apply list_elem_of_here).
  destruct Hnot. apply elem_of_dom.
  destruct (decide (id_text chunk ∈ dom (store_of w))) as [Hold|Hnew].
  - rewrite add_world_store. by apply upsert_all_lookup_is_Some, elem_of_dom.
  - apply add_world_new_chunk. by apply list_elem_of_filter.
Qed.

(** A world whose store is open and holds every chunk stays as it is. *)
Lemma add_world_nothing_new chunks w :
  is_Some (chroma_dir w) → new_chunks_of chunks w = [] →
  add_world embedding_function chunks w = w.
Proof.
  intros [store Hstore] Hnil. unfold add_world. rewrite Hnil.
  destruct w as [data dir]. simpl in *. by subst.
Qed.

(** C8. A run of [populate_database] that reports success reports the
    number of documents loaded as [documents_processed], the number of
    chunks the splitter made of them as [chunks_created], and as
    [new_documents_added] the number of chunks whose identifier the store
    did not hold; these chunks were handed to the store in one upsert and
    have a record afterwards. *)
Theorem populate_database_reports F reset w r st' :
  populate_database F reset (init w) = (Return r, st') →
  r !! "success" = Some (VBool true) →
  ∃ documents chunks new_chunks,
    data_dir w = Some documents ∧
    chunks = text_splitter documents ∧
    new_chunks
    = filter (λ chunk, id_text chunk ∉ dom (store_of (after_reset reset w)))
        (calculate_chunk_ids chunks) ∧
    r !! "documents_processed" = Some (VInt (len documents)) ∧
    r !! "chunks_created" = Some (VInt (len chunks)) ∧
    r !! "new_documents_added" = Some (VInt (len new_chunks)) ∧
    dom r = {[ "success"; "message"; "documents_processed"; "chunks_created";
               "new_documents_added" ]} ∧
    (new_chunks ≠ [] →
       filter is_add (journal st')
       = [ev_db_add_documents new_chunks (id_text <$> new_chunks)]) ∧
    ∀ chunk, chunk ∈ new_chunks → is_Some (store_of (world st') !! id_text chunk).
Proof.
  intros Hrun Hsuccess.
  destruct (populate_database_success_inv _ _ _ _ _ Hrun Hsuccess)
    as (documents & Hdata & Hne & -> & Hworld & Hjournal).
  exists documents, (text_splitter documents),
    (new_chunks_of (text_splitter documents) (after_reset reset w)).
  split_and!; try done.
  - intros Hnew. rewrite Hjournal. unfold add_calls.
    rewrite decide_False by done.
    rewrite !filter_app. unfold reset_calls.
    by destruct reset, (chroma_dir w).
  - intros chunk Hin. rewrite Hworld. by apply add_world_new_chunk.
Qed.

(** C3. After a run of [populate_database] that reported success, a
    second run with [reset] left at [False], on the source directory and
    the store as the first run left them, reports success with
    [new_documents_added == 0], leaves the world as it found it and asks
    the store for no upsert; and whatever exceptions the second run could
    meet, if it reports success it is this run. *)
Theorem populate_database_idempotent F1 reset1 w r1 st1 :
  populate_database F1 reset1 (init w) = (Return r1, st1) →
  r1 !! "success" = Some (VBool true) →
  ∃ r2 st2,
    populate_database no_faults false (init (world st1)) = (Return r2, st2) ∧
    r2 !! "success" = Some (VBool true) ∧
    r2 !! "new_documents_added" = Some (VInt 0) ∧
    world st2 = world st1 ∧
    filter is_add (journal st2) = [] ∧
    ∀ F2 r2' st2',
      populate_database F2 false (init (world st1)) = (Return r2', st2') →
      r2' !! "success" = Some (VBool true) →
      r2' = r2 ∧ st2' = st2.
Proof.
  intros Hrun Hsuccess.
  destruct (populate_database_success_inv _ _ _ _ _ Hrun Hsuccess)
    as (documents & Hdata & Hne & _ & Hworld & _).
  set (chunks := text_splitter documents) in *.
  assert (populate_database_try no_faults false (init (world st1))
          = (Return (success_result (len documents) (len chunks) 0),
             {| world := world st1;
                journal := [ev_os_path_exists DATA_PATH;
                            ev_PyPDFDirectoryLoader_load DATA_PATH;
                            ev_split_documents documents]
                           ++ add_calls chunks (world st1) |})) as Htry.
  { rewrite populate_database_try_no_faults. simpl.
    rewrite Hworld at 1. rewrite add_world_data_dir, after_reset_data_dir, Hdata.
    rewrite decide_False by done. fold chunks.
    assert (new_chunks_of chunks (world st1) = []) as Hnil
      by (rewrite Hworld; apply new_chunks_of_add_world).
    rewrite Hnil, add_world_nothing_new; [done| |done].
    rewrite Hworld. simpl. eauto. }
  eexists _, _. split_and!.
  - apply populate_database_of_try, Htry.
  - done.
  - done.
  - done.
  - simpl. unfold add_calls.
    assert (new_chunks_of chunks (world st1) = []) as ->
      by (rewrite Hworld; apply new_chunks_of_add_world).
    done.
  - intros F2 r2' st2' Hrun2 Hsuccess2.
    pose proof (populate_database_success _ _ _ _ _ _ _ Hrun2 Hsuccess2) as Htry2.
    rewrite Htry in Htry2. by injection Htry2 as <- <-.
Qed.

(** *** Quiet runs *)

Lemma reset_calls_no_processing reset w ev :
  ev ∈ reset_calls reset w → is_processing ev = false.
Proof.
  unfold reset_calls. destruct reset, (chroma_dir w); intros Hin;
    elem_of_inv Hin; by subst.
Qed.

Lemma add_calls_upsert chunks w documents ids :
  ev_db_add_documents documents ids ∈ add_calls chunks w →
  documents = new_chunks_of chunks w ∧ ids = id_text <$> documents.
Proof.
  unfold add_calls. case_decide; intros Hin; elem_of_inv Hin.
  by injection Hin as <- <-.
Qed.

(** What a quiet run went through: one of the two precondition failures,
    or the whole pipeline. *)
Lemma populate_database_quiet_inv F reset w r st' :
  populate_database F reset (init w) = (Return r, st') →
  quiet (journal st') →
  let w1 := after_reset reset w in
  (data_dir w = None ∧ r = failure_result not_found_message ∧ world st' = w1 ∧
   journal st' = reset_calls reset w ++ [ev_os_path_exists DATA_PATH]) ∨
  (data_dir w = Some [] ∧ r = failure_result no_pdf_message ∧ world st' = w1 ∧
   journal st' = reset_calls reset w
                 ++ [ev_os_path_exists DATA_PATH;
                     ev_PyPDFDirectoryLoader_load DATA_PATH]) ∨
  (∃ documents, data_dir w = Some documents ∧ documents ≠ [] ∧
     let chunks := text_splitter documents in
     r = success_result (len documents) (len chunks) (len (new_chunks_of chunks w1)) ∧
     world st' = add_world embedding_function chunks w1 ∧
     journal st' = reset_calls reset w
                   ++ [ev_os_path_exists DATA_PATH;
                       ev_PyPDFDirectoryLoader_load DATA_PATH;
                       ev_split_documents documents]
                   ++ add_calls chunks w1).
Proof.
  intros Hrun Hquiet.
  pose proof (populate_database_quiet _ _ _ _ _ _ _ Hrun Hquiet) as Htry.
  rewrite populate_database_try_no_faults in Htry. simpl in Htry.
  destruct (data_dir w) as [documents|].
  - destruct (decide (documents = [])) as [->|Hne]; injection Htry as <- <-; simpl.
    + right; left. split_and!; try done. by rewrite <- !app_assoc.
    + right; right. exists documents. split_and!; try done. by rewrite <- !app_assoc.
  - injection Htry as <- <-. left. done.
Qed.

(** When nothing raises, [populate_database] returns and its journal is
    quiet, whatever the world. *)
Lemma populate_database_no_faults_quiet reset w :
  ∃ r st',
    populate_database no_faults reset (init w) = (Return r, st') ∧
    quiet (journal st').
Proof.
  destruct (traced_populate_database_try embedding_function text_splitter
              no_faults reset (init w)) as (evs & Hj & Ho).
  destruct (populate_database_try no_faults reset (init w)) as [[r|msg] st'] eqn:Htry;
    simpl in *.
  - exists r, st'. split; [by apply populate_database_of_try|]. by rewrite Hj.
  - rewrite populate_database_try_no_faults in Htry. simpl in Htry.
    destruct (data_dir w) as [documents|]; [destruct (decide (documents = []))|];
      discriminate Htry.
Qed.

(** C6. In a run of [populate_database] in which nothing raises, measured
    against the store as the run finds it when it fetches the identifiers
    (the store before the call when [reset] is false, the emptied store
    when [reset] is true): every record of that store is still there,
    unchanged; a chunk whose identifier that store holds is in no upsert,
    the identifiers of an upsert being exactly those of its chunks; and a
    record of the store after the run is one of before or is made from a
    chunk of this run under an identifier that was absent. *)
Theorem populate_database_frame F reset w r st' :
  populate_database F reset (init w) = (Return r, st') →
  quiet (journal st') →
  let before := store_of (after_reset reset w) in
  let after := store_of (world st') in
  (reset = false → before = store_of w) ∧
  (∀ i rec, before !! i = Some rec → after !! i = Some rec) ∧
  (∀ documents ids, ev_db_add_documents documents ids ∈ journal st' →
     ids = id_text <$> documents ∧
     ∀ chunk, chunk ∈ documents → before !! id_text chunk = None) ∧
  (∀ i rec, after !! i = Some rec →
     before !! i = Some rec ∨
     before !! i = None ∧
     ∃ documents chunk,
       data_dir w = Some documents ∧
       chunk ∈ calculate_chunk_ids (text_splitter documents) ∧
       chunk_id chunk = Some (VStr i) ∧ rec = record_of db chunk).
Proof.
  intros Hrun Hquiet before after. split; [by intros ->|].
  destruct (populate_database_quiet_inv _ _ _ _ _ Hrun Hquiet)
    as [(_ & _ & Hworld & Hj)|[(_ & _ & Hworld & Hj)
       |(documents & Hdata & _ & _ & Hworld & Hj)]].
  - subst after before. rewrite Hworld, Hj. split_and!; [done| |auto].
    intros documents ids [Hin|Hin]%elem_of_app.
    + by apply reset_calls_no_processing in Hin.
    + elem_of_inv Hin; by subst.
  - subst after before. rewrite Hworld, Hj. split_and!; [done| |auto].
    intros documents ids [Hin|Hin]%elem_of_app.
    + by apply reset_calls_no_processing in Hin.
    + elem_of_inv Hin; by subst.
  - set (chunks := text_splitter documents) in *.
    set (w1 := after_reset reset w) in *.
    assert (∀ chunk, chunk ∈ new_chunks_of chunks w1 →
              chunk ∈ calculate_chunk_ids chunks ∧ store_of w1 !! id_text chunk = None)
      as Hnew.
    { intros chunk [Hnot Hin]%list_elem_of_filter. split; [done|].
      by apply not_elem_of_dom. }
    subst after. rewrite Hworld, add_world_store. split_and!.
    + intros i rec Hi. rewrite upsert_all_lookup_other; [done|].
      intros (chunk & -> & Hin)%list_elem_of_fmap.
      apply Hnew in Hin as [_ Hnone]. subst before. congruence.
    + intros docs ids Hin. rewrite Hj in Hin.
      apply elem_of_app in Hin as [Hin|Hin];
        [by apply reset_calls_no_processing in Hin|].
      apply elem_of_app in Hin as [Hin|Hin]; [elem_of_inv Hin|].
      apply add_calls_upsert in Hin as [-> ->]. split; [done|].
      intros chunk Hin. by apply Hnew.
    + intros i rec [Hold|(n & chunk & Hn & Hc & ->)]%upsert_all_lookup_Some; [auto|].
      right. rewrite list_lookup_fmap, Hc in Hn. injection Hn as <-.
      apply list_elem_of_lookup_2 in Hc. destruct (Hnew _ Hc) as [Hin Hnone].
      split; [done|]. exists documents, chunk. split_and!; try done.
      pose proof (calculate_chunk_ids_has_id chunks) as Hid.
      rewrite Forall_forall in Hid. destruct (Hid _ Hin) as [i Hi].
      unfold id_text. by rewrite Hi.
Qed.

(** C7. In a run of [populate_database] in which nothing raises: when the
    source data directory does not exist the result is a failure whose
    message contains ["not found"], no document is loaded or split and
    the store is not opened; when the directory exists and loading yields
    no document the result is a failure with another message, which
    contains ["No PDF documents found"], and nothing is split or stored. *)
Theorem populate_database_preconditions F reset w r st' :
  populate_database F reset (init w) = (Return r, st') →
  quiet (journal st') →
  (data_dir w = None →
     r = failure_result not_found_message ∧
     r !! "success" = Some (VBool false) ∧
     r !! "message" = Some (VStr not_found_message) ∧
     contains "not found" not_found_message = true ∧
     (∀ ev, ev ∈ journal st' → is_processing ev = false) ∧
     world st' = after_reset reset w) ∧
  (data_dir w = Some [] →
     r = failure_result no_pdf_message ∧
     r !! "success" = Some (VBool false) ∧
     r !! "message" = Some (VStr no_pdf_message) ∧
     contains "No PDF documents found" no_pdf_message = true ∧
     no_pdf_message ≠ not_found_message ∧
     filter is_processing (journal st') = [ev_PyPDFDirectoryLoader_load DATA_PATH] ∧
     world st' = after_reset reset w).
Proof.
  intros Hrun Hquiet.
  destruct (populate_database_quiet_inv _ _ _ _ _ Hrun Hquiet)
    as [(Hdata & -> & Hworld & Hj)|[(Hdata & -> & Hworld & Hj)
       |(documents & Hdata & Hne & _)]].
  - split; intros Hd; [|congruence]. split_and!; try done.
    intros ev. rewrite Hj. intros [Hin|Hin]%elem_of_app.
    + by eapply reset_calls_no_processing.
    + elem_of_inv Hin; by subst.
  - split; intros Hd; [congruence|]. split_and!; try done.
    rewrite Hj, filter_app. unfold reset_calls.
    by destruct reset, (chroma_dir w).
  - split; intros Hd; congruence.
Qed.

(** C9. In a run of [populate_database] with [reset] true in which
    nothing raises, the store location is removed before the source data
    directory is looked for; when that directory is missing the run
    returns the failure result and leaves no store behind, whatever the
    store held. *)
Theorem populate_database_reset_first F w r st' :
  populate_database F true (init w) = (Return r, st') →
  quiet (journal st') →
  (∃ rest,
     journal st'
     = [ev_print "✨ Clearing Database"; ev_os_path_exists CHROMA_PATH]
       ++ (if decide (is_Some (chroma_dir w))
           then [ev_shutil_rmtree CHROMA_PATH] else [])
       ++ ev_os_path_exists DATA_PATH :: rest) ∧
  (data_dir w = None →
     r !! "success" = Some (VBool false) ∧
     r !! "message" = Some (VStr not_found_message) ∧
     chroma_dir (world st') = None ∧
     store_ids (world st') = [] ∧
     filter is_processing (journal st') = []).
Proof.
  intros Hrun Hquiet.
  assert (reset_calls true w
          = [ev_print "✨ Clearing Database"; ev_os_path_exists CHROMA_PATH]
            ++ (if decide (is_Some (chroma_dir w))
                then [ev_shutil_rmtree CHROMA_PATH] else [])) as Hreset.
  { unfold reset_calls. destruct (chroma_dir w); [|done].
    by rewrite decide_True by eauto. }
  destruct (populate_database_quiet_inv _ _ _ _ _ Hrun Hquiet)
    as [(Hdata & -> & Hworld & Hj)|[(Hdata & -> & Hworld & Hj)
       |(documents & Hdata & Hne & _ & _ & Hj)]];
    rewrite Hreset, <- app_assoc in Hj.
  - split; [by eexists|]. intros _. rewrite Hworld. split_and!; try done.
    rewrite Hj, !filter_app. by case_decide.
  - split; [by eexists|]. congruence.
  - split; [by eexists|]. congruence.
Qed.

(** The results of the body of [populate_database] carry [success] and
    [message]. *)
Lemma populate_database_try_result F reset st r st' :
  populate_database_try F reset st = (Return r, st') →
  is_Some (r !! "success") ∧ is_Some (r !! "message").
Proof.
  intros Htry%populate_database_try_returns_as.
  rewrite populate_database_try_no_faults in Htry. simpl in Htry.
  destruct (data_dir (world st)) as [documents|];
    [destruct (decide (documents = []))|];
    injection Htry as <- _; by split.
Qed.

(** How [populate_database] ends, by the exceptions its calls met: a
    quiet run returns; an [Exception] is turned into the error result
    with its message; another exception goes on to the caller. *)
Lemma populate_database_catches F reset st :
  ∃ evs,
    journal (populate_database F reset st).2 = journal st ++ evs ∧
    (quiet evs → ∃ r, (populate_database F reset st).1 = Return r) ∧
    (∀ r, (populate_database F reset st).1 = Return r →
       is_Some (r !! "success") ∧ is_Some (r !! "message")) ∧
    ∀ e, ev_raised e ∈ evs →
      if is_Exception e then
        ∃ r, (populate_database F reset st).1 = Return r ∧
             r !! "success" = Some (VBool false) ∧
             r !! "message"
             = Some (VStr ("Error populating database: " +:+ exn_str e))
      else (populate_database F reset st).1 = Raise e.
Proof.
  destruct (traced_populate_database_try embedding_function text_splitter F reset st)
    as (evs & Hj & Ho).
  destruct (populate_database_cases embedding_function text_splitter F reset st)
    as [(r & st' & Htry & Hpop)|[(e & st' & Htry & He & Hpop)
       |(e & st' & Htry & He & Hpop)]];
    rewrite Htry in Hj, Ho; rewrite Hpop; simpl in *; exists evs.
  - split_and!; [done|by eauto| |].
    + intros r' [= <-]. by eapply populate_database_try_result.
    + intros e Hin. by destruct (Ho e).
  - destruct Ho as [Hin Hall]. split_and!; [done|by eauto| |].
    + by intros r' [= <-].
    + intros e' ->%Hall. rewrite He. by eexists.
  - destruct Ho as [Hin Hall]. split_and!; [done| |done|].
    + intros Hquiet. by destruct (Hquiet e).
    + intros e' ->%Hall. by rewrite He.
Qed.

End Ingestion.

(** ** Reset *)

Section Reset.
Context {Vector : Type}.
Variable embedding_function : string → Vector.
Variable text_splitter : list Document → list Document.
Implicit Types (st : State Vector) (F : Faults Vector) (w : World Vector).

#[local] Abbreviation clear_chroma_database :=
  (clear_db.clear_chroma_database embedding_function).

Lemma traced_clear_chroma_database F : traced (clear_chroma_database F).
Proof.
  unfold clear_db.clear_chroma_database, clear_db.get_embedding_function,
    Chroma, db_get, db_delete.
  apply traced_bind; [by apply traced_call|intros ef _ _ _].
  apply traced_bind; [by apply traced_call|intros db _ _ _].
  apply traced_bind; [by apply traced_call|intros existing_items _ _ _].
  apply traced_bind; [|intros; apply traced_ret].
  case_decide; [|apply traced_ret].
  apply traced_bind; [by apply traced_call|intros; apply traced_ret].
Qed.

Lemma clear_chroma_database_returns_as F :
  returns_as (clear_chroma_database F) (clear_chroma_database no_faults).
Proof.
  unfold clear_db.clear_chroma_database, clear_db.get_embedding_function,
    Chroma, db_get, db_delete.
  repeat first
    [ apply returns_as_call
    | apply returns_as_refl
    | apply returns_as_bind; [|intros ?]
    | case_decide ].
Qed.

(** A run of [clear_chroma_database] in which nothing raises. *)
Lemma clear_chroma_database_no_faults st :
  clear_chroma_database no_faults st
  = (Return (cleared_result (len (store_ids (world st)))),
     {| world := with_store
                   (if decide (store_ids (world st) = []) then id
                    else delete_all (store_ids (world st)))
                   (world st);
        journal := journal st
                   ++ [ev_get_embedding_function; ev_Chroma CHROMA_PATH; ev_db_get]
                   ++ if decide (store_ids (world st) = []) then []
                      else [ev_db_delete (store_ids (world st))] |}).
Proof.
  unfold clear_db.clear_chroma_database, clear_db.get_embedding_function,
    Chroma, db_get, db_delete.
  rewrite (bind_Return _ _ _ _ _ (call_no_faults _ _ _)).
  rewrite (bind_Return _ _ _ _ _ (call_no_faults _ _ _)).
  rewrite (bind_Return _ _ _ _ _ (call_no_faults _ _ _)).
  simpl.
  assert (store_ids (with_store id (world st)) = store_ids (world st)) as -> by done.
  unfold cleared_result.
  destruct (store_ids (world st)) as [|i ids] eqn:Hids.
  - rewrite !decide_False by (unfold len; simpl; lia).
    unfold bind, ret. simpl. by rewrite <- !app_assoc.
  - rewrite !decide_True by (unfold len; simpl; lia).
    rewrite (bind_Return _ _ _ _ _
               (bind_Return _ _ _ _ _ (call_no_faults _ _ _))).
    unfold ret. simpl. by rewrite <- !app_assoc.
Qed.

(** C5. Whatever the store holds, a run of [clear_chroma_database] in
    which nothing raises returns a success result whose [chunks_deleted]
    is the number N of identifiers the store held. With N = 0 the message
    says there is nothing to delete and no delete is asked of the store;
    with N > 0 one delete is asked, for exactly the N identifiers held.
    Afterwards a fetch of all identifiers is empty. *)
Theorem clear_chroma_database_deletes_all w :
  let ids := store_ids w in
  let N := size (store_of w) in
  ∃ r st',
    clear_chroma_database no_faults (init w) = (Return r, st') ∧
    r !! "success" = Some (VBool true) ∧
    r !! "chunks_deleted" = Some (VInt (Z.of_nat N)) ∧
    (length ids = N ∧ NoDup ids ∧ ∀ i, i ∈ ids ↔ is_Some (store_of w !! i)) ∧
    store_ids (world st') = [] ∧
    (N = 0%nat →
       r !! "message" = Some (VStr "📂 No documents to delete in the Chroma database.") ∧
       filter is_delete (journal st') = []) ∧
    (N ≠ 0%nat →
       r !! "message"
       = Some (VStr ("🗑️ Deleted " +:+ str_int (Z.of_nat N)
                     +:+ " documents from Chroma database.")) ∧
       filter is_delete (journal st') = [ev_db_delete ids]).
Proof.
  intros ids N. eexists _, _. split; [apply clear_chroma_database_no_faults|].
  simpl. fold ids.
  assert (len ids = Z.of_nat N) as -> by (unfold len; f_equal; apply store_ids_length).
  assert (ids = [] ↔ N = 0%nat) as Hnil.
  { unfold N. rewrite <- store_ids_length. fold ids.
    split; [by intros ->|by destruct ids]. }
  split_and!; try done.
  - apply store_ids_length.
  - apply store_ids_NoDup.
  - apply store_ids_elem_of.
  - apply store_ids_nil. rewrite store_of_with_store.
    case_decide as E; [by apply store_ids_nil|apply delete_all_store_ids].
  - intros HN. unfold cleared_result. rewrite decide_False by lia.
    split; [done|]. by rewrite decide_True by (by apply Hnil).
  - intros HN. unfold cleared_result. rewrite decide_True by lia.
    split; [done|]. by rewrite decide_False by (by rewrite Hnil).
Qed.

(** C4. [populate_database] catches the instances of [Exception] and
    nothing else. A run in which no call raises returns a result, and
    every result carries [success] and [message]. When a call raises an
    [Exception], the run returns a result with [success == False] and the
    message of that exception after ["Error populating database: "]. When
    a call raises an exception that is no [Exception] (a
    [KeyboardInterrupt], a [SystemExit]), the run raises it to the caller.
    [clear_chroma_database] has no handler: when a call (opening the
    store, fetching the identifiers, deleting) meets an exception of any
    class, the run raises it to the caller. *)
Theorem exceptions_caught_by_populate_database_only F reset st :
  (∃ evs,
     journal (populate_db.populate_database embedding_function text_splitter
                F reset st).2 = journal st ++ evs ∧
     (quiet evs →
        ∃ r, (populate_db.populate_database embedding_function text_splitter
                F reset st).1 = Return r) ∧
     (∀ r, (populate_db.populate_database embedding_function text_splitter
              F reset st).1 = Return r →
        is_Some (r !! "success") ∧ is_Some (r !! "message")) ∧
     ∀ e, ev_raised e ∈ evs →
       if is_Exception e then
         ∃ r, (populate_db.populate_database embedding_function text_splitter
                 F reset st).1 = Return r ∧
              r !! "success" = Some (VBool false) ∧
              r !! "message"
              = Some (VStr ("Error populating database: " +:+ exn_str e))
       else
         (populate_db.populate_database embedding_function text_splitter
            F reset st).1 = Raise e) ∧
  (∃ evs,
     journal (clear_chroma_database F st).2 = journal st ++ evs ∧
     ∀ e, ev_raised e ∈ evs → (clear_chroma_database F st).1 = Raise e).
Proof.
  split; [apply populate_database_catches|].
  destruct (traced_clear_chroma_database F st) as (evs & Hj & Ho).
  exists evs. split; [done|]. intros e Hin.
  destruct (clear_chroma_database F st).1 as [r|e'].
  - by destruct (Ho e).
  - destruct Ho as [_ Hall]. by rewrite (Hall _ Hin).
Qed.

End Reset.

(** ** The properties at concrete inputs *)

Ltac grouped_by_cases :=
  let i := fresh "i" in
  let j := fresh "j" in
  let l := fresh "l" in
  intros i j l ? [? ?] ? ?;
  do 6 (try destruct i as [|i]); try done;
  do 6 (try destruct j as [|j]); try lia;
  do 6 (try destruct l as [|l]); try lia;
  simplify_eq/=; done.

Lemma two_documents_of_data_model : Forall of_data_model two_documents.
Proof. repeat constructor. Qed.

Lemma two_documents_grouped : grouped (group_key <$> two_documents).
Proof. grouped_by_cases. Qed.


Lemma calculate_chunk_ids_unique_witness :
  Forall of_data_model two_documents ∧
  grouped (group_key <$> two_documents) ∧
  ∀ ci cj,
    calculate_chunk_ids two_documents !! 2%nat = Some ci →
    calculate_chunk_ids two_documents !! 3%nat = Some cj →
    is_Some (chunk_id ci) ∧ is_Some (chunk_id cj) ∧ chunk_id ci ≠ chunk_id cj.
Proof.
  pose proof two_documents_of_data_model as Hdm.
  pose proof two_documents_grouped as Hg.
  split_and!; [exact Hdm|exact Hg|].
  intros ci cj. apply (calculate_chunk_ids_unique two_documents Hdm Hg 2 3). lia.
Defined.

Lemma calculate_chunk_ids_collision_witness :
  Forall of_data_model key_returns ∧
  (0 < 1 < 2)%nat ∧
  group_key (chunk_of "a.pdf" 0 "three") = group_key (chunk_of "a.pdf" 0 "one") ∧
  group_key (chunk_of "b.pdf" 0 "two") ≠ group_key (chunk_of "a.pdf" 0 "one") ∧
  ∃ a b ca cb, a ≠ b ∧
    calculate_chunk_ids key_returns !! a = Some ca ∧
    calculate_chunk_ids key_returns !! b = Some cb ∧
    chunk_id ca = Some (VStr "a.pdf:0:0") ∧
    chunk_id cb = Some (VStr "a.pdf:0:0").
Proof.
  assert (Forall of_data_model key_returns) as Hdm by (repeat constructor).
  assert (group_key (chunk_of "b.pdf" 0 "two") ≠ group_key (chunk_of "a.pdf" 0 "one"))
    as Hne by (intros E; vm_compute in E; discriminate E).
  split_and!; [done|lia|lia|reflexivity|done|].
  apply (calculate_chunk_ids_collision key_returns 0 1 2
           (chunk_of "a.pdf" 0 "one") (chunk_of "b.pdf" 0 "two")
           (chunk_of "a.pdf" 0 "three")); (done || lia).
Defined.


(** An equation between closed terms, checked by evaluating both sides. *)
Ltac run_by_computation :=
  match goal with
  | |- _ = ?b => vm_cast_no_check (@eq_refl _ b)
  end.

Ltac quiet_by_computation := apply quietb_quiet; run_by_computation.

Lemma populate_database_reports_witness :
  let run := demo_populate false demo_world in
  run = (Return (returned run ∅), run.2) ∧
  returned run ∅ !! "success" = Some (VBool true) ∧
  returned run ∅ !! "documents_processed" = Some (VInt 2) ∧
  returned run ∅ !! "chunks_created" = Some (VInt 4) ∧
  returned run ∅ !! "new_documents_added" = Some (VInt 3).
Proof.
  intros run.
  assert (run = (Return (returned run ∅), run.2)) as Hrun by run_by_computation.
  assert (returned run ∅ !! "success" = Some (VBool true)) as Hsuccess
    by run_by_computation.
  destruct (populate_database_reports demo_embedding demo_splitter no_faults
              false demo_world _ _ Hrun Hsuccess)
    as (documents & chunks & new_chunks & Hdata & Hchunks & Hnew & Hp & Hc & Hn & _).
  injection Hdata as <-. subst chunks new_chunks.
  refine (conj Hrun (conj Hsuccess (conj Hp (conj Hc _)))).
  etrans; [exact Hn|]. run_by_computation.
Defined.

Lemma populate_database_idempotent_witness :
  let run := demo_populate true demo_world in
  run = (Return (returned run ∅), run.2) ∧
  returned run ∅ !! "success" = Some (VBool true) ∧
  ∃ r2 st2,
    demo_populate false (world run.2) = (Return r2, st2) ∧
    r2 !! "new_documents_added" = Some (VInt 0) ∧
    world st2 = world run.2.
Proof.
  intros run.
  assert (run = (Return (returned run ∅), run.2)) as Hrun by run_by_computation.
  assert (returned run ∅ !! "success" = Some (VBool true)) as Hsuccess
    by run_by_computation.
  destruct (populate_database_idempotent demo_embedding demo_splitter no_faults
              true demo_world _ _ Hrun Hsuccess)
    as (r2 & st2 & Hrun2 & _ & Hzero & Hworld & _).
  refine (conj Hrun (conj Hsuccess _)).
  exists r2, st2. exact (conj Hrun2 (conj Hzero Hworld)).
Defined.

Lemma populate_database_frame_witness :
  let run := demo_populate false demo_world in
  run = (Return (returned run ∅), run.2) ∧
  quiet (journal run.2) ∧
  store_of demo_world !! "doc1.pdf:0:0" = Some kept_record ∧
  store_of (world run.2) !! "doc1.pdf:0:0" = Some kept_record.
Proof.
  intros run.
  assert (run = (Return (returned run ∅), run.2)) as Hrun by run_by_computation.
  assert (quiet (journal run.2)) as Hquiet by quiet_by_computation.
  assert (store_of demo_world !! "doc1.pdf:0:0" = Some kept_record) as Hkept
    by run_by_computation.
  destruct (populate_database_frame demo_embedding demo_splitter no_faults
              false demo_world _ _ Hrun Hquiet) as (_ & Hframe & _).
  exact (conj Hrun (conj Hquiet (conj Hkept (Hframe _ _ Hkept)))).
Defined.

Lemma populate_database_preconditions_witness :
  let run := demo_populate false no_data_world in
  run = (Return (returned run ∅), run.2) ∧
  quiet (journal run.2) ∧
  data_dir no_data_world = None ∧
  returned run ∅ !! "success" = Some (VBool false) ∧
  returned run ∅ !! "message" = Some (VStr not_found_message).
Proof.
  intros run.
  assert (run = (Return (returned run ∅), run.2)) as Hrun by run_by_computation.
  assert (quiet (journal run.2)) as Hquiet by quiet_by_computation.
  destruct (populate_database_preconditions demo_embedding demo_splitter no_faults
              false no_data_world _ _ Hrun Hquiet) as [Hmissing _].
  destruct (Hmissing eq_refl) as (_ & Hs & Hm & _).
  exact (conj Hrun (conj Hquiet (conj eq_refl (conj Hs Hm)))).
Defined.

Lemma populate_database_reset_first_witness :
  let run := demo_populate true no_data_world in
  run = (Return (returned run ∅), run.2) ∧
  quiet (journal run.2) ∧
  store_ids no_data_world = ["doc1.pdf:0:0"] ∧
  returned run ∅ !! "success" = Some (VBool false) ∧
  chroma_dir (world run.2) = None.
Proof.
  intros run.
  assert (run = (Return (returned run ∅), run.2)) as Hrun by run_by_computation.
  assert (quiet (journal run.2)) as Hquiet by quiet_by_computation.
  assert (store_ids no_data_world = ["doc1.pdf:0:0"]) as Hheld by run_by_computation.
  destruct (populate_database_reset_first demo_embedding demo_splitter no_faults
              no_data_world _ _ Hrun Hquiet) as [_ Hmissing].
  destruct (Hmissing eq_refl) as (Hs & _ & Hgone & _).
  exact (conj Hrun (conj Hquiet (conj Hheld (conj Hs Hgone)))).
Defined.

(** With the store unreachable [clear_chroma_database] raises: it returns
    no result, with [success == False] or otherwise. And an exception
    that is no [Exception], here the interrupt of the user, goes through
    [populate_database] too. *)
Lemma clear_chroma_database_raises :
  let run :=
    clear_db.clear_chroma_database demo_embedding store_unreachable (init demo_world) in
  let run' :=
    populate_db.populate_database demo_embedding demo_splitter interrupted false
      (init demo_world) in
  run.1 = Raise (an_Exception "store unreachable") ∧
  ev_raised (an_Exception "store unreachable") ∈ journal run.2 ∧
  (¬ ∃ r, run.1 = Return r) ∧
  run'.1 = Raise KeyboardInterrupt ∧
  ¬ ∃ r, run'.1 = Return r.
Proof.
  intros run run'.
  assert (run.1 = Raise (an_Exception "store unreachable")) as Hraise
    by run_by_computation.
  assert (run'.1 = Raise KeyboardInterrupt) as Hraise' by run_by_computation.
  split_and!.
  - exact Hraise.
  - apply list_elem_of_In. vm_compute. tauto.
  - intros [r Hr]. rewrite Hraise in Hr. discriminate Hr.
  - exact Hraise'.
  - intros [r Hr]. rewrite Hraise' in Hr. discriminate Hr.
Qed.

(** * Further properties *)

(** ** Chunk-identifier assignment, whatever the input *)

Section ChunkIdsMore.
Implicit Types (chunk : Document) (chunks : list Document).

Lemma page_id_of_set_id chunk i : page_id_of (set_id chunk i) = page_id_of chunk.
Proof.
  unfold page_id_of, set_id, dict_get. simpl.
  by rewrite !lookup_insert_ne by done.
Qed.

Lemma set_id_set_id chunk i j : set_id (set_id chunk i) j = set_id chunk j.
Proof. unfold set_id. simpl. by rewrite insert_insert_eq. Qed.

Lemma page_ids_calculate_chunk_ids chunks :
  page_id_of <$> calculate_chunk_ids chunks = page_id_of <$> chunks.
Proof.
  apply list_eq. intros i. rewrite !list_lookup_fmap.
  destruct (chunks !! i) as [chunk|] eqn:Hi.
  - rewrite (calculate_chunk_ids_lookup _ _ _ Hi). simpl.
    by rewrite page_id_of_set_id.
  - apply lookup_ge_None in Hi.
    rewrite (proj2 (lookup_ge_None _ _)); [done|].
    by rewrite calculate_chunk_ids_length.
Qed.

(** X1. [calculate_chunk_ids] keeps the number and the order of the
    chunks, their text and every metadata entry other than ["id"]; the
    ["id"] entry of each chunk is a string afterwards, whatever it was. *)
Theorem calculate_chunk_ids_only_writes_id chunks :
  length (calculate_chunk_ids chunks) = length chunks ∧
  ∀ i chunk, chunks !! i = Some chunk →
    ∃ chunk' chunk_id,
      calculate_chunk_ids chunks !! i = Some chunk' ∧
      page_content chunk' = page_content chunk ∧
      metadata chunk' !! "id" = Some (VStr chunk_id) ∧
      ∀ key, key ≠ "id" → metadata chunk' !! key = metadata chunk !! key.
Proof.
  split; [apply calculate_chunk_ids_length|].
  intros i chunk Hi. rewrite (calculate_chunk_ids_lookup _ _ _ Hi).
  eexists _, _. split_and!; [done..| |].
  - apply lookup_insert_eq.
  - intros key Hkey. simpl. by rewrite lookup_insert_ne.
Qed.

(** X2. Assigning identifiers again changes nothing: the identifiers
    depend on the sources and pages only, and a second pass overwrites
    each ["id"] with the same text. *)
Theorem calculate_chunk_ids_idempotent chunks :
  calculate_chunk_ids (calculate_chunk_ids chunks) = calculate_chunk_ids chunks.
Proof.
  apply list_eq. intros i.
  destruct (chunks !! i) as [chunk|] eqn:Hi.
  - pose proof (calculate_chunk_ids_lookup _ _ _ Hi) as Hi'.
    rewrite (calculate_chunk_ids_lookup _ _ _ Hi'), Hi'.
    by rewrite page_ids_calculate_chunk_ids, page_id_of_set_id, set_id_set_id.
  - apply lookup_ge_None in Hi.
    rewrite !(proj2 (lookup_ge_None _ _)); [done|..];
      by rewrite ?calculate_chunk_ids_length.
Qed.

(** The scan of a list in two parts: the second part starts from the
    loop variables the first part leaves. *)
Lemma calculate_chunk_ids_loop_app last n chunks chunks' :
  calculate_chunk_ids_loop last n (chunks ++ chunks')
  = calculate_chunk_ids_loop last n chunks
    ++ calculate_chunk_ids_loop (loop_state (last, n) chunks).1
         (loop_state (last, n) chunks).2 chunks'.
Proof.
  revert last n. induction chunks as [|chunk chunks IH]; intros last n; [done|].
  simpl. by rewrite IH.
Qed.

(** X3. The identifiers of the chunks seen so far do not depend on the
    chunks that follow: the scan of a longer list starts with the scan of
    its prefix. *)
Theorem calculate_chunk_ids_prefix chunks chunks' :
  take (length chunks) (calculate_chunk_ids (chunks ++ chunks'))
  = calculate_chunk_ids chunks.
Proof.
  unfold calculate_chunk_ids. rewrite calculate_chunk_ids_loop_app.
  apply take_app_length'. by rewrite calculate_chunk_ids_loop_length.
Qed.

Lemma loop_state_page_id st chunks chunk :
  (loop_state st (chunks ++ [chunk])).1 = Some (page_id_of chunk).
Proof. by rewrite loop_state_snoc. Qed.

(** A chunk whose page id is not the last one seen starts at 0, as the
    first chunk of a list does. *)
Lemma calculate_chunk_ids_loop_restart last n chunks :
  (∀ chunk, head chunks = Some chunk → Some (page_id_of chunk) ≠ last) →
  calculate_chunk_ids_loop last n chunks = calculate_chunk_ids chunks.
Proof.
  destruct chunks as [|chunk chunks]; [done|]. intros Hne.
  unfold calculate_chunk_ids. simpl.
  by rewrite decide_False by (by apply Hne).
Qed.

(** X4. Where one document ends and the next begins (the page id of the
    last chunk of the first part differs from that of the first chunk of
    the second), the identifiers of the whole are those of the parts,
    each assigned on its own. *)
Theorem calculate_chunk_ids_app chunks chunks' :
  (∀ chunk chunk', last chunks = Some chunk → head chunks' = Some chunk' →
     page_id_of chunk ≠ page_id_of chunk') →
  calculate_chunk_ids (chunks ++ chunks')
  = calculate_chunk_ids chunks ++ calculate_chunk_ids chunks'.
Proof.
  intros Hne. unfold calculate_chunk_ids at 1.
  rewrite calculate_chunk_ids_loop_app. f_equal.
  apply calculate_chunk_ids_loop_restart. intros chunk' Hhead.
  destruct chunks as [|chunk chunks _] using rev_ind; [done|].
  rewrite loop_state_page_id. intros [= E].
  apply (Hne chunk chunk'); [by rewrite last_snoc|done|done].
Qed.

(** X5. The identifier text can be read back: over chunks of the data
    model, two identifiers ["<source>:<page>:<index>"] agree only when
    source, page and index all agree, colons in the source or not. *)
Theorem chunk_id_text_determines chunk chunk' (index index' : Z) :
  of_data_model chunk → of_data_model chunk' →
  page_id_of chunk +:+ ":" +:+ str_int index
  = page_id_of chunk' +:+ ":" +:+ str_int index' →
  group_key chunk = group_key chunk' ∧ index = index'.
Proof.
  intros Hdm Hdm' [Hp Hn]%chunk_id_text_inj. split; [|done].
  by apply page_id_of_inj.
Qed.



End ChunkIdsMore.

(** ** The calls a run makes *)

Section CallsOnly.
Context {Vector : Type}.
Implicit Types (st : State Vector) (F : Faults Vector) (P : Event → Prop).

Lemma calls_only_ret {A} P (a : A) : calls_only (Vector:=Vector) P (ret a).
Proof. intros st. exists []. simpl. by rewrite app_nil_r. Qed.

Lemma calls_only_raise {A} P msg : calls_only (Vector:=Vector) (A:=A) P (raise msg).
Proof. intros st. exists []. simpl. by rewrite app_nil_r. Qed.

Lemma calls_only_bind {A B} P (m : M Vector A) (k : A → M Vector B) :
  calls_only P m → (∀ a, calls_only P (k a)) → calls_only P (bind m k).
Proof.
  intros Hm Hk st. destruct (Hm st) as (evs1 & Hj1 & HP1).
  unfold bind. destruct (m st) as [[a|msg] st1]; simpl in *; [|by exists evs1].
  destruct (Hk a st1) as (evs2 & Hj2 & HP2).
  exists (evs1 ++ evs2). rewrite Hj2, Hj1, app_assoc. split; [done|].
  by apply Forall_app.
Qed.

Lemma calls_only_try_except {A} P (m : M Vector A) (handler : string → M Vector A) :
  calls_only P m → (∀ e, calls_only P (handler e)) → calls_only P (try_except m handler).
Proof.
  intros Hm Hh st. destruct (Hm st) as (evs1 & Hj1 & HP1).
  unfold try_except. destruct (m st) as [[a|e] st1]; simpl in *; [by exists evs1|].
  destruct (is_Exception e); [|by exists evs1].
  destruct (Hh (exn_str e) st1) as (evs2 & Hj2 & HP2).
  exists (evs1 ++ evs2). rewrite Hj2, Hj1, app_assoc. split; [done|].
  by apply Forall_app.
Qed.

Lemma calls_only_call {A} P F (ev : Event) (nominal : World Vector → A * World Vector) :
  P ev → (∀ msg, P (ev_raised msg)) → calls_only P (call F ev nominal).
Proof.
  intros Hev Hraised st. unfold call.
  destruct (F ev (world st)) as [[msg w']|]; simpl.
  - exists [ev; ev_raised msg]. split; [done|]. repeat constructor; auto.
  - destruct (nominal (world st)) as [a w']. exists [ev]. split; [done|].
    by repeat constructor.
Qed.

Lemma calls_only_os_path_exists P path :
  P (ev_os_path_exists path) → calls_only (Vector:=Vector) P (os_path_exists path).
Proof.
  intros Hev st. exists [ev_os_path_exists path]. split; [done|].
  by repeat constructor.
Qed.

Lemma calls_only_metadata_id P chunk :
  calls_only (Vector:=Vector) P (populate_db.metadata_id chunk).
Proof.
  unfold populate_db.metadata_id.
  destruct (metadata chunk !! "id") as [[]|];
    auto using calls_only_ret, calls_only_raise.
Qed.

Lemma calls_only_new_chunks_loop P existing_ids chunks :
  calls_only (Vector:=Vector) P (populate_db.new_chunks_loop existing_ids chunks).
Proof.
  induction chunks as [|chunk chunks IH]; simpl; [apply calls_only_ret|].
  apply calls_only_bind; [apply calls_only_metadata_id|intros i].
  apply calls_only_bind; [apply IH|intros new_chunks]. apply calls_only_ret.
Qed.

Lemma calls_only_ids_of P chunks :
  calls_only (Vector:=Vector) P (populate_db.ids_of chunks).
Proof.
  induction chunks as [|chunk chunks IH]; simpl; [apply calls_only_ret|].
  apply calls_only_bind; [apply calls_only_metadata_id|intros i].
  apply calls_only_bind; [apply IH|intros ids]. apply calls_only_ret.
Qed.

End CallsOnly.

(** ** [populate_db.py], further *)

Section PopulateMore.
Context {Vector : Type}.
Variable embedding_function : string → Vector.
Variable text_splitter : list Document → list Document.
Implicit Types (st : State Vector) (F : Faults Vector) (w : World Vector).
Implicit Types (chunk : Document) (chunks : list Document).

#[local] Abbreviation add_to_chroma := (populate_db.add_to_chroma embedding_function).
#[local] Abbreviation populate_database_try :=
  (populate_db.populate_database_try embedding_function text_splitter).
#[local] Abbreviation populate_database :=
  (populate_db.populate_database embedding_function text_splitter).
#[local] Abbreviation db :=
  {| persist_directory := CHROMA_PATH; db_embedding_function := embedding_function |}.

(** X7. [clear_database] looks before it removes. When the store
    location does not exist it calls no [rmtree] and returns with the
    world as it was, whatever exceptions the collaborators hold ready.
    When the location exists it is removed, and the data directory is
    kept; an exception of [rmtree] is raised on to the caller. *)
Theorem clear_database_guard F st :
  (chroma_dir (world st) = None →
     populate_db.clear_database F st
     = (Return (),
        {| world := world st;
           journal := journal st ++ [ev_os_path_exists CHROMA_PATH] |})) ∧
  (is_Some (chroma_dir (world st)) →
     match F (ev_shutil_rmtree CHROMA_PATH) (world st) with
     | None =>
         populate_db.clear_database F st
         = (Return (),
            {| world := {| data_dir := data_dir (world st); chroma_dir := None |};
               journal := journal st ++ [ev_os_path_exists CHROMA_PATH;
                                         ev_shutil_rmtree CHROMA_PATH] |})
     | Some (msg, w') =>
         populate_db.clear_database F st
         = (Raise msg,
            {| world := w';
               journal := journal st ++ [ev_os_path_exists CHROMA_PATH;
                                         ev_shutil_rmtree CHROMA_PATH;
                                         ev_raised msg] |})
     end).
Proof.
  unfold populate_db.clear_database, shutil_rmtree, bind, os_path_exists, call.
  destruct st as [[data [store|]] jr]; simpl; split; try done.
  intros _. destruct (F _ _) as [[msg w']|]; simpl; by rewrite <- app_assoc.
Qed.

(** *** [add_to_chroma] *)

Lemma add_to_chroma_inv F chunks st n st' :
  add_to_chroma F chunks st = (Return n, st') →
  n = len (new_chunks_of chunks (world st)) ∧
  world st' = add_world embedding_function chunks (world st) ∧
  journal st' = journal st ++ add_calls chunks (world st).
Proof.
  intros Hrun%add_to_chroma_returns_as.
  rewrite add_to_chroma_no_faults in Hrun. by injection Hrun as <- <-.
Qed.

(** X8. With no chunk at all, [add_to_chroma] still opens the store, and
    so creates it when there is none, asks for no upsert, leaves every
    record and the data directory as they were, and returns 0. *)
Theorem add_to_chroma_nil F st n st' :
  add_to_chroma F [] st = (Return n, st') →
  n = 0 ∧
  chroma_dir (world st') = Some (store_of (world st)) ∧
  data_dir (world st') = data_dir (world st) ∧
  ∃ evs, journal st' = journal st ++ evs ∧
         ev_Chroma CHROMA_PATH ∈ evs ∧ filter is_add evs = [].
Proof.
  intros (-> & -> & ->)%add_to_chroma_inv. split_and!; [done..|].
  eexists. split; [done|]. split; [|done].
  unfold add_calls. apply elem_of_app. left.
  apply elem_of_cons. right. apply list_elem_of_here.
Qed.

(** An upsert of distinct identifiers the store lacks adds one record
    for each. *)
Lemma upsert_all_size (d : Db Vector) documents ids
    (store : gmap string (StoreRecord Vector)) :
  NoDup ids → (∀ i, i ∈ ids → store !! i = None) → length ids = length documents →
  size (upsert_all d documents ids store) = (size store + length ids)%nat.
Proof.
  unfold upsert_all. revert documents store.
  induction ids as [|j ids IH]; intros [|c documents] store Hnd Hnew Hlen;
    simplify_eq/=; [lia|].
  apply NoDup_cons in Hnd as [Hj Hnd].
  rewrite IH; [|done| |done].
  - rewrite map_size_insert_None; [lia|]. apply Hnew, list_elem_of_here.
  - intros i Hi. rewrite lookup_insert_ne by (by intros ->).
    apply Hnew. by apply elem_of_cons; right.
Qed.

(** Under the grouping invariant the identifier texts are distinct. *)
Lemma id_texts_NoDup chunks :
  Forall of_data_model chunks → grouped (group_key <$> chunks) →
  NoDup (id_text <$> calculate_chunk_ids chunks).
Proof.
  intros Hdm Hg%grouped_page_id; [|done].
  assert (∀ i j x, (i < j)%nat →
            (id_text <$> calculate_chunk_ids chunks) !! i = Some x →
            (id_text <$> calculate_chunk_ids chunks) !! j = Some x → False) as Hlt.
  { intros i j x Hij. rewrite !list_lookup_fmap.
    destruct (calculate_chunk_ids chunks !! i) as [ci|] eqn:Hi; [|done].
    destruct (calculate_chunk_ids chunks !! j) as [cj|] eqn:Hj; [|done].
    simpl. intros [= <-] [= E].
    apply (calculate_chunk_ids_unique_by_page_id chunks i j ci cj Hg Hij Hi Hj).
    pose proof (calculate_chunk_ids_has_id chunks) as Hid.
    rewrite Forall_lookup in Hid.
    destruct (Hid _ _ Hi) as [a Ha], (Hid _ _ Hj) as [b Hb].
    unfold id_text in E. rewrite Ha, Hb in E. by rewrite Ha, Hb, E. }
  apply NoDup_alt. intros i j x Hi Hj.
  destruct (Nat.lt_trichotomy i j) as [?|[?|?]]; [|done|]; exfalso; eauto.
Qed.

Lemma filter_fmap_sublist {A B} (f : A → B) (P : A → Prop)
    `{∀ x, Decision (P x)} (l : list A) :
  f <$> filter P l `sublist_of` f <$> l.
Proof.
  induction l as [|x l IH]; [done|]. rewrite filter_cons.
  destruct (decide (P x)); simpl; by constructor.
Qed.

(** X9. Over chunks of the data model presented grouped by
    [(source, page)], a run of [add_to_chroma] that returns has added
    exactly as many records as the number it returns. *)
Theorem add_to_chroma_grows_by_count F chunks st n st' :
  Forall of_data_model chunks →
  grouped (group_key <$> chunks) →
  add_to_chroma F chunks st = (Return n, st') →
  Z.of_nat (size (store_of (world st'))) = Z.of_nat (size (store_of (world st))) + n.
Proof.
  intros Hdm Hg (-> & -> & _)%add_to_chroma_inv.
  unfold add_world. rewrite store_of_with_store, upsert_all_size.
  - unfold len. rewrite length_fmap. lia.
  - eapply sublist_NoDup; [by apply id_texts_NoDup|]. apply filter_fmap_sublist.
  - intros i (chunk & -> & [Hnot _]%list_elem_of_filter)%list_elem_of_fmap.
    by apply not_elem_of_dom.
  - by rewrite length_fmap.
Qed.

(** *** [populate_database] *)

Lemma new_chunks_of_empty_store chunks w :
  store_of w = ∅ → new_chunks_of chunks w = calculate_chunk_ids chunks.
Proof.
  intros Hempty. unfold new_chunks_of, fresh_chunks. rewrite Hempty, dom_empty_L.
  induction (calculate_chunk_ids chunks) as [|chunk l IH]; [done|].
  rewrite filter_cons, decide_True by apply not_elem_of_empty. by rewrite IH.
Qed.

(** On an empty store a successful run adds every chunk. *)
Lemma populate_database_empty_store F reset w r st' :
  store_of (after_reset reset w) = ∅ →
  populate_database F reset (init w) = (Return r, st') →
  r !! "success" = Some (VBool true) →
  ∃ n, r !! "chunks_created" = Some (VInt n) ∧
       r !! "new_documents_added" = Some (VInt n) ∧
       Z.of_nat (length (store_ids (world st'))) ≤ n.
Proof.
  intros Hempty Hrun Hsuccess.
  destruct (populate_database_success_inv _ _ _ _ _ _ _ Hrun Hsuccess)
    as (documents & _ & _ & -> & Hworld & _).
  rewrite (new_chunks_of_empty_store _ _ Hempty) in *.
  assert (len (calculate_chunk_ids (text_splitter documents))
          = len (text_splitter documents)) as Hlen
    by (unfold len; by rewrite calculate_chunk_ids_length).
  rewrite Hlen.
  exists (len (text_splitter documents)). split_and!; [done..|].
  rewrite store_ids_length, Hworld. unfold add_world.
  rewrite store_of_with_store, Hempty, (new_chunks_of_empty_store _ _ Hempty).
  unfold upsert_all.
  assert (∀ (pairs : list (string * Document)) (m : gmap string (StoreRecord Vector)),
            (size (foldl (λ m '(i, chunk), <[i:=record_of db chunk]> m) m pairs)
             ≤ size m + length pairs)%nat) as Hle.
  { induction pairs as [|[i c] pairs IH]; intros m; simpl; [lia|].
    etrans; [apply IH|].
    destruct (m !! i) eqn:Hi.
    - rewrite map_size_insert_Some by eauto. lia.
    - rewrite map_size_insert_None by done. lia. }
  etrans; [apply inj_le, Hle|].
  rewrite map_size_empty, length_zip, length_fmap, calculate_chunk_ids_length.
  unfold len. lia.
Qed.

(** X10. With [reset] true a successful run finds nothing in the store,
    so it adds every chunk: [new_documents_added == chunks_created],
    whatever the store held before. *)
Theorem populate_database_reset_adds_all F w r st' :
  populate_database F true (init w) = (Return r, st') →
  r !! "success" = Some (VBool true) →
  ∃ n, r !! "chunks_created" = Some (VInt n) ∧
       r !! "new_documents_added" = Some (VInt n).
Proof.
  intros Hrun Hsuccess.
  destruct (populate_database_empty_store F true w r st' eq_refl Hrun Hsuccess)
    as (n & ? & ? & _).
  by exists n.
Qed.

(** X11. A run of [populate_database] ends in one of three ways. It
    returns a failure, with the keys [success] (false) and [message]
    only. It returns a success, with the three counts as well, at least
    one document processed and [0 <= new_documents_added <=
    chunks_created], under a message that says that the database was
    populated exactly when [new_documents_added > 0]. Or it raises, and
    then the exception is no instance of [Exception]. *)
Theorem populate_database_result_shape F reset st :
  match (populate_database F reset st).1 with
  | Return r =>
      (r !! "success" = Some (VBool false) ∧
       (∃ message, r !! "message" = Some (VStr message)) ∧
       dom r = {[ "success"; "message" ]}) ∨
      (r !! "success" = Some (VBool true) ∧
       dom r = {[ "success"; "message"; "documents_processed"; "chunks_created";
                  "new_documents_added" ]} ∧
       ∃ documents_processed chunks_created new_docs_added : Z,
         r !! "documents_processed" = Some (VInt documents_processed) ∧
         r !! "chunks_created" = Some (VInt chunks_created) ∧
         r !! "new_documents_added" = Some (VInt new_docs_added) ∧
         1 ≤ documents_processed ∧ 0 ≤ new_docs_added ≤ chunks_created ∧
         r !! "message"
         = Some (VStr (if decide (new_docs_added > 0)
                       then "Database populated successfully"
                       else "No new documents were added. All documents already exist in the database.")))
  | Raise e => is_Exception e = false
  end.
Proof.
  destruct (populate_database_cases embedding_function text_splitter F reset st)
    as [(r & st' & Htry & Hpop)|[(e & st' & Htry & He & Hpop)
       |(e & st' & Htry & He & Hpop)]]; rewrite Hpop; simpl; [| |done].
  - apply populate_database_try_returns_as in Htry.
    rewrite populate_database_try_no_faults in Htry. simpl in Htry.
    destruct (data_dir (world st)) as [documents|];
      [destruct (decide (documents = [])) as [|Hne]|];
      injection Htry as <- _; [left|right|left]; try (split_and!; by eauto).
    split_and!; [done..|]. eexists _, _, _. split_and!; try done.
    + destruct documents; [done|]. unfold len. simpl. lia.
    + unfold len. lia.
    + unfold len, new_chunks_of, fresh_chunks.
      apply inj_le. etrans; [apply length_filter|].
      by rewrite calculate_chunk_ids_length.
  - left. split_and!; by eauto.
Qed.

(** X12. With [reset] false the check for the data directory comes before
    every call that can raise: when the directory is missing the run
    returns the not-found failure and leaves the world untouched,
    whatever exceptions the collaborators hold ready. *)
Theorem populate_database_missing_dir_any_faults F w :
  data_dir w = None →
  populate_database F false (init w)
  = (Return (failure_result not_found_message),
     {| world := w; journal := [ev_os_path_exists DATA_PATH] |}).
Proof.
  intros Hdata.
  unfold populate_db.populate_database, try_except,
    populate_db.populate_database_try, bind, os_path_exists, ret.
  simpl. by rewrite Hdata.
Qed.

Lemma calls_only_add_to_chroma F reset chunks :
  calls_only (populate_call reset) (add_to_chroma F chunks).
Proof.
  unfold populate_db.add_to_chroma, populate_db.get_embedding_function,
    Chroma, db_get, print, db_add_documents.
  repeat first
    [ apply calls_only_ret
    | apply calls_only_call; [done|done]
    | apply calls_only_new_chunks_loop
    | apply calls_only_ids_of
    | apply calls_only_bind; [|intros ?]
    | case_decide ].
Qed.

Lemma calls_only_populate_database F reset :
  calls_only (populate_call reset) (populate_database F reset).
Proof.
  unfold populate_db.populate_database, populate_db.populate_database_try,
    populate_db.load_documents, populate_db.split_documents,
    populate_db.clear_database, PyPDFDirectoryLoader_load, shutil_rmtree, print.
  apply calls_only_try_except; [|intros; apply calls_only_ret].
  apply calls_only_bind.
  { destruct reset; [|apply calls_only_ret].
    apply calls_only_bind; [by apply calls_only_call|intros _].
    apply calls_only_bind; [apply calls_only_os_path_exists; by left|intros []].
    - by apply calls_only_call.
    - apply calls_only_ret. }
  intros _.
  apply calls_only_bind; [apply calls_only_os_path_exists; by right|intros []];
    simpl; [|apply calls_only_ret].
  apply calls_only_bind; [by apply calls_only_call|intros documents].
  case_decide; [apply calls_only_ret|].
  apply calls_only_bind; [by apply calls_only_call|intros chunks].
  apply calls_only_bind; [apply calls_only_add_to_chroma|intros n].
  apply calls_only_ret.
Qed.

(** X13. Whatever happens, [populate_database] never asks the store to
    delete and never removes the data directory; the only directory it
    removes is the store's, and that only when [reset] is true. *)
Theorem populate_database_never_deletes F reset st :
  ∃ evs,
    journal (populate_database F reset st).2 = journal st ++ evs ∧
    (∀ ids, ev_db_delete ids ∉ evs) ∧
    (∀ path, ev_shutil_rmtree path ∈ evs → path = CHROMA_PATH ∧ reset = true) ∧
    (∀ path, ev_PyPDFDirectoryLoader_load path ∈ evs → path = DATA_PATH).
Proof.
  destruct (calls_only_populate_database F reset st) as (evs & Hj & HP).
  exists evs. rewrite Forall_forall in HP. split_and!; [done|..].
  - intros ids Hin. by apply HP in Hin.
  - intros path Hin. by apply HP in Hin.
  - intros path Hin. by apply HP in Hin.
Qed.

End PopulateMore.

(** ** [clear_db.py], further, and the two scripts together *)

Section ClearMore.
Context {Vector : Type}.
Variable embedding_function : string → Vector.
Variable text_splitter : list Document → list Document.
Implicit Types (st : State Vector) (F : Faults Vector) (w : World Vector).

#[local] Abbreviation clear_chroma_database :=
  (clear_db.clear_chroma_database embedding_function).
#[local] Abbreviation populate_database :=
  (populate_db.populate_database embedding_function text_splitter).

(** What a run of [clear_chroma_database] that returns went through. *)
Lemma clear_chroma_database_inv F w r st' :
  clear_chroma_database F (init w) = (Return r, st') →
  r = cleared_result (Z.of_nat (size (store_of w))) ∧
  world st' = {| data_dir := data_dir w; chroma_dir := Some ∅ |} ∧
  journal st' = [ev_get_embedding_function; ev_Chroma CHROMA_PATH; ev_db_get]
                ++ if decide (store_ids w = []) then []
                   else [ev_db_delete (store_ids w)].
Proof.
  intros Hrun%clear_chroma_database_returns_as.
  rewrite clear_chroma_database_no_faults in Hrun. injection Hrun as <- <-.
  simpl. split_and!; [| |done].
  - unfold len. by rewrite store_ids_length.
  - unfold with_store. f_equal. f_equal.
    case_decide as E; [by apply store_ids_nil|apply delete_all_store_ids].
Qed.

(** X14. [clear_chroma_database] has no failure result: a run that
    returns at all, whatever exceptions were held ready, reports success
    with the number of records the store held. It leaves the store in
    place and empty, creating it when there was none, and leaves the data
    directory alone. *)
Theorem clear_chroma_database_returns_success F w r st' :
  clear_chroma_database F (init w) = (Return r, st') →
  r !! "success" = Some (VBool true) ∧
  r !! "chunks_deleted" = Some (VInt (Z.of_nat (size (store_of w)))) ∧
  dom r = {[ "success"; "message"; "chunks_deleted" ]} ∧
  chroma_dir (world st') = Some ∅ ∧
  data_dir (world st') = data_dir w.
Proof.
  intros (-> & -> & _)%clear_chroma_database_inv. by split_and!.
Qed.

(** X15. Clearing twice: the second run finds nothing, asks for no
    delete, reports [chunks_deleted == 0] and leaves the world as the
    first run left it. *)
Theorem clear_chroma_database_twice F1 F2 w r1 st1 r2 st2 :
  clear_chroma_database F1 (init w) = (Return r1, st1) →
  clear_chroma_database F2 (init (world st1)) = (Return r2, st2) →
  r2 !! "chunks_deleted" = Some (VInt 0) ∧
  r2 !! "message" = Some (VStr "📂 No documents to delete in the Chroma database.") ∧
  filter is_delete (journal st2) = [] ∧
  world st2 = world st1.
Proof.
  intros (_ & Hw1 & _)%clear_chroma_database_inv
    (-> & Hw2 & Hj2)%clear_chroma_database_inv.
  rewrite Hw1 in *. by rewrite Hw2, Hj2.
Qed.

(** X16. Clearing the store and then ingesting with [reset] false adds
    every chunk: the successful run reports
    [new_documents_added == chunks_created]. *)
Theorem clear_then_populate_adds_all F1 F2 w r1 st1 r2 st2 :
  clear_chroma_database F1 (init w) = (Return r1, st1) →
  populate_database F2 false (init (world st1)) = (Return r2, st2) →
  r2 !! "success" = Some (VBool true) →
  ∃ n, r2 !! "chunks_created" = Some (VInt n) ∧
       r2 !! "new_documents_added" = Some (VInt n).
Proof.
  intros (_ & Hw1 & _)%clear_chroma_database_inv Hrun Hsuccess.
  destruct (populate_database_empty_store embedding_function text_splitter
              F2 false (world st1) r2 st2) as (n & ? & ? & _); [|done..|by exists n].
  by rewrite Hw1.
Qed.

Lemma calls_only_clear_chroma_database F :
  calls_only clear_call (clear_chroma_database F).
Proof.
  unfold clear_db.clear_chroma_database, clear_db.get_embedding_function,
    Chroma, db_get, db_delete.
  repeat first
    [ apply calls_only_ret
    | apply calls_only_call; [done|done]
    | apply calls_only_bind; [|intros ?]
    | case_decide ].
Qed.

(** X17. Whatever happens, [clear_chroma_database] only fetches the
    embedding function, opens the store at its path, fetches the
    identifiers and deletes: it removes no directory, loads no document
    and adds nothing to the store. *)
Theorem clear_chroma_database_never_adds F st :
  ∃ evs,
    journal (clear_chroma_database F st).2 = journal st ++ evs ∧
    (∀ documents ids, ev_db_add_documents documents ids ∉ evs) ∧
    (∀ path, ev_shutil_rmtree path ∉ evs) ∧
    (∀ path, ev_PyPDFDirectoryLoader_load path ∉ evs) ∧
    (∀ path, ev_Chroma path ∈ evs → path = CHROMA_PATH).
Proof.
  destruct (calls_only_clear_chroma_database F st) as (evs & Hj & HP).
  exists evs. rewrite Forall_forall in HP. split_and!; [done|..].
  - intros documents ids Hin. by apply HP in Hin.
  - intros path Hin. by apply HP in Hin.
  - intros path Hin. by apply HP in Hin.
  - intros path Hin. by apply HP in Hin.
Qed.

(** X18. What ingestion added, reset deletes. After a successful run of
    [populate_database] with [reset] true, a run of
    [clear_chroma_database] that returns reports at most as many deleted
    records as chunks were created, and exactly as many when the chunks
    the splitter made are of the data model and grouped by
    [(source, page)]. *)
Theorem populate_then_clear_counts F1 F2 w documents r1 st1 r2 st2 :
  data_dir w = Some documents →
  populate_database F1 true (init w) = (Return r1, st1) →
  r1 !! "success" = Some (VBool true) →
  clear_chroma_database F2 (init (world st1)) = (Return r2, st2) →
  ∃ created deleted : Z,
    r1 !! "chunks_created" = Some (VInt created) ∧
    r2 !! "chunks_deleted" = Some (VInt deleted) ∧
    deleted ≤ created ∧
    (Forall of_data_model (text_splitter documents) →
     grouped (group_key <$> text_splitter documents) →
     deleted = created).
Proof.
  intros Hdata Hrun Hsuccess (-> & _ & _)%clear_chroma_database_inv.
  destruct (populate_database_success_inv _ _ _ _ _ _ _ Hrun Hsuccess)
    as (documents' & Hdata' & _ & Hr & Hworld & _).
  assert (documents' = documents) as -> by congruence.
  destruct (populate_database_empty_store embedding_function text_splitter
              F1 true w r1 st1 eq_refl Hrun Hsuccess) as (n & Hc & _ & Hle).
  rewrite Hr in Hc.
  change (Some (VInt (len (text_splitter documents))) = Some (VInt n)) in Hc.
  injection Hc as <-.
  exists (len (text_splitter documents)), (Z.of_nat (size (store_of (world st1)))).
  rewrite store_ids_length in Hle. split_and!; [by rewrite Hr|done|done|].
  intros Hdm Hg. rewrite Hworld. unfold add_world.
  rewrite store_of_with_store, new_chunks_of_empty_store by done.
  rewrite upsert_all_size.
  - change (store_of (after_reset true w)) with (∅ : gmap string (StoreRecord Vector)).
    rewrite map_size_empty, length_fmap, calculate_chunk_ids_length.
    unfold len. lia.
  - by apply id_texts_NoDup.
  - intros i _. apply lookup_empty.
  - by rewrite length_fmap.
Qed.

End ClearMore.

(** ** The further properties at concrete inputs *)

Lemma calculate_chunk_ids_app_witness :
  (∀ chunk chunk', last doc1_chunks = Some chunk → head doc2_chunks = Some chunk' →
     page_id_of chunk ≠ page_id_of chunk') ∧
  calculate_chunk_ids (doc1_chunks ++ doc2_chunks)
  = calculate_chunk_ids doc1_chunks ++ calculate_chunk_ids doc2_chunks.
Proof.
  assert (∀ chunk chunk', last doc1_chunks = Some chunk →
            head doc2_chunks = Some chunk' →
            page_id_of chunk ≠ page_id_of chunk') as Hne.
  { intros chunk chunk' [= <-] [= <-] E. vm_compute in E. discriminate E. }
  exact (conj Hne (calculate_chunk_ids_app doc1_chunks doc2_chunks Hne)).
Defined.

Lemma chunk_id_text_determines_witness :
  let chunk := chunk_of "notes:2024.pdf" 7 "one" in
  let chunk' := chunk_of "notes:2024.pdf" 7 "two" in
  of_data_model chunk ∧ of_data_model chunk' ∧
  page_id_of chunk +:+ ":" +:+ str_int 3 = page_id_of chunk' +:+ ":" +:+ str_int 3 ∧
  group_key chunk = group_key chunk' ∧ 3 = 3.
Proof.
  intros chunk chunk'.
  assert (of_data_model chunk) as Hdm by done.
  assert (of_data_model chunk') as Hdm' by done.
  assert (page_id_of chunk +:+ ":" +:+ str_int 3
          = page_id_of chunk' +:+ ":" +:+ str_int 3) as Hid by reflexivity.
  exact (conj Hdm (conj Hdm' (conj Hid
           (chunk_id_text_determines chunk chunk' 3 3 Hdm Hdm' Hid)))).
Defined.


Lemma add_to_chroma_nil_witness :
  let run := demo_add [] empty_data_world in
  run = (Return (returned run 0), run.2) ∧
  returned run 0 = 0 ∧
  chroma_dir empty_data_world = None ∧
  chroma_dir (world run.2) = Some ∅.
Proof.
  intros run.
  assert (run = (Return (returned run 0), run.2)) as Hrun by run_by_computation.
  destruct (add_to_chroma_nil demo_embedding no_faults _ _ _ Hrun)
    as (Hzero & Hstore & _).
  exact (conj Hrun (conj Hzero (conj eq_refl Hstore))).
Defined.

Lemma demo_chunks_of_data_model : Forall of_data_model demo_chunks.
Proof. repeat constructor. Qed.

Lemma demo_chunks_grouped : grouped (group_key <$> demo_chunks).
Proof. grouped_by_cases. Qed.

Lemma add_to_chroma_grows_by_count_witness :
  let run := demo_add demo_chunks demo_world in
  Forall of_data_model demo_chunks ∧
  grouped (group_key <$> demo_chunks) ∧
  run = (Return (returned run 0), run.2) ∧
  returned run 0 = 3 ∧
  Z.of_nat (size (store_of (world run.2))) = 1 + 3.
Proof.
  intros run.
  pose proof demo_chunks_of_data_model as Hdm.
  pose proof demo_chunks_grouped as Hg.
  assert (run = (Return (returned run 0), run.2)) as Hrun by run_by_computation.
  assert (returned run 0 = 3) as Hthree by run_by_computation.
  pose proof (add_to_chroma_grows_by_count demo_embedding no_faults demo_chunks
                _ _ _ Hdm Hg Hrun) as Hsize.
  refine (conj Hdm (conj Hg (conj Hrun (conj Hthree _)))).
  etrans; [exact Hsize|]. run_by_computation.
Defined.

Lemma populate_database_reset_adds_all_witness :
  let run := demo_populate true demo_world in
  run = (Return (returned run ∅), run.2) ∧
  returned run ∅ !! "success" = Some (VBool true) ∧
  ∃ n, returned run ∅ !! "chunks_created" = Some (VInt n) ∧
       returned run ∅ !! "new_documents_added" = Some (VInt n).
Proof.
  intros run.
  assert (run = (Return (returned run ∅), run.2)) as Hrun by run_by_computation.
  assert (returned run ∅ !! "success" = Some (VBool true)) as Hsuccess
    by run_by_computation.
  exact (conj Hrun (conj Hsuccess
           (populate_database_reset_adds_all demo_embedding demo_splitter no_faults
              demo_world _ _ Hrun Hsuccess))).
Defined.

Lemma populate_database_missing_dir_any_faults_witness :
  data_dir no_data_world = None ∧
  populate_db.populate_database demo_embedding demo_splitter rmtree_denied false
    (init no_data_world)
  = (Return (failure_result not_found_message),
     {| world := no_data_world; journal := [ev_os_path_exists DATA_PATH] |}).
Proof.
  exact (conj eq_refl
           (populate_database_missing_dir_any_faults demo_embedding demo_splitter
              rmtree_denied no_data_world eq_refl)).
Defined.

Lemma clear_chroma_database_returns_success_witness :
  let run := demo_clear no_faults demo_world in
  run = (Return (returned run ∅), run.2) ∧
  returned run ∅ !! "chunks_deleted" = Some (VInt 1) ∧
  chroma_dir (world run.2) = Some ∅.
Proof.
  intros run.
  assert (run = (Return (returned run ∅), run.2)) as Hrun by run_by_computation.
  destruct (clear_chroma_database_returns_success demo_embedding no_faults
              demo_world _ _ Hrun) as (_ & Hdeleted & _ & Hstore & _).
  refine (conj Hrun (conj _ Hstore)).
  etrans; [exact Hdeleted|]. run_by_computation.
Defined.

Lemma clear_chroma_database_twice_witness :
  let run1 := demo_clear no_faults demo_world in
  let run2 := demo_clear no_faults (world run1.2) in
  run1 = (Return (returned run1 ∅), run1.2) ∧
  run2 = (Return (returned run2 ∅), run2.2) ∧
  returned run2 ∅ !! "chunks_deleted" = Some (VInt 0) ∧
  world run2.2 = world run1.2.
Proof.
  intros run1 run2.
  assert (run1 = (Return (returned run1 ∅), run1.2)) as Hrun1 by run_by_computation.
  assert (run2 = (Return (returned run2 ∅), run2.2)) as Hrun2 by run_by_computation.
  destruct (clear_chroma_database_twice demo_embedding no_faults no_faults
              demo_world _ _ _ _ Hrun1 Hrun2) as (Hzero & _ & _ & Hworld).
  exact (conj Hrun1 (conj Hrun2 (conj Hzero Hworld))).
Defined.

Lemma clear_then_populate_adds_all_witness :
  let run1 := demo_clear no_faults demo_world in
  let run2 := demo_populate false (world run1.2) in
  run1 = (Return (returned run1 ∅), run1.2) ∧
  run2 = (Return (returned run2 ∅), run2.2) ∧
  returned run2 ∅ !! "success" = Some (VBool true) ∧
  ∃ n, returned run2 ∅ !! "chunks_created" = Some (VInt n) ∧
       returned run2 ∅ !! "new_documents_added" = Some (VInt n).
Proof.
  intros run1 run2.
  assert (run1 = (Return (returned run1 ∅), run1.2)) as Hrun1 by run_by_computation.
  assert (run2 = (Return (returned run2 ∅), run2.2)) as Hrun2 by run_by_computation.
  assert (returned run2 ∅ !! "success" = Some (VBool true)) as Hsuccess
    by run_by_computation.
  exact (conj Hrun1 (conj Hrun2 (conj Hsuccess
           (clear_then_populate_adds_all demo_embedding demo_splitter
              no_faults no_faults demo_world _ _ _ _ Hrun1 Hrun2 Hsuccess)))).
Defined.

Lemma populate_then_clear_counts_witness :
  let run1 := demo_populate true demo_world in
  let run2 := demo_clear no_faults (world run1.2) in
  data_dir demo_world = Some demo_corpus ∧
  run1 = (Return (returned run1 ∅), run1.2) ∧
  returned run1 ∅ !! "success" = Some (VBool true) ∧
  run2 = (Return (returned run2 ∅), run2.2) ∧
  ∃ created deleted : Z,
    returned run1 ∅ !! "chunks_created" = Some (VInt created) ∧
    returned run2 ∅ !! "chunks_deleted" = Some (VInt deleted) ∧
    deleted = created.
Proof.
  intros run1 run2.
  assert (run1 = (Return (returned run1 ∅), run1.2)) as Hrun1 by run_by_computation.
  assert (returned run1 ∅ !! "success" = Some (VBool true)) as Hsuccess
    by run_by_computation.
  assert (run2 = (Return (returned run2 ∅), run2.2)) as Hrun2 by run_by_computation.
  destruct (populate_then_clear_counts demo_embedding demo_splitter
              no_faults no_faults demo_world demo_corpus _ _ _ _
              eq_refl Hrun1 Hsuccess Hrun2)
    as (created & deleted & Hc & Hd & _ & Heq).
  refine (conj eq_refl (conj Hrun1 (conj Hsuccess (conj Hrun2 _)))).
  exists created, deleted.
  exact (conj Hc (conj Hd (Heq demo_chunks_of_data_model demo_chunks_grouped))).
Defined.

(** ** Exceptions end a run *)

Section StopsAtRaiseFacts.
Context {Vector : Type}.
Variable embedding_function : string → Vector.
Variable text_splitter : list Document → list Document.
Implicit Types (st : State Vector) (F : Faults Vector) (w : World Vector).

Lemma stops_at_raise_ret {A} (a : A) : stops_at_raise (Vector:=Vector) (ret a).
Proof. intros st. exists []. simpl. rewrite app_nil_r. auto using quiet_nil. Qed.

(** The continuation only matters at the values [m] can return. *)
Lemma stops_at_raise_bind {A B} (m : M Vector A) (k : A → M Vector B) :
  stops_at_raise m →
  (∀ a st st1, m st = (Return a, st1) → stops_at_raise (k a)) →
  stops_at_raise (bind m k).
Proof.
  intros Hm Hk st. destruct (Hm st) as (evs1 & Hj1 & Ho1).
  unfold bind. destruct (m st) as [[a|msg] st1] eqn:Hrun; simpl in *;
    [|by exists evs1].
  destruct (Hk a st st1 Hrun st1) as (evs2 & Hj2 & Ho2).
  exists (evs1 ++ evs2). rewrite Hj2, Hj1, app_assoc. split; [done|].
  destruct (k a st1).1 as [b|msg].
  - by apply quiet_app.
  - destruct Ho2 as (evs' & -> & Hquiet). exists (evs1 ++ evs').
    split; [by rewrite app_assoc|]. by apply quiet_app.
Qed.

Lemma stops_at_raise_call {A} F (ev : Event)
    (nominal : World Vector → A * World Vector) :
  (∀ msg, ev ≠ ev_raised msg) → stops_at_raise (call F ev nominal).
Proof.
  intros Hev st. unfold call.
  assert (quiet [ev]) as Hquiet
    by (intros msg Hin; elem_of_inv Hin; by destruct (Hev msg)).
  destruct (F ev (world st)) as [[msg w']|]; simpl.
  - exists [ev; ev_raised msg]. split; [done|]. by exists [ev].
  - destruct (nominal (world st)) as [a w']. by exists [ev].
Qed.

Lemma stops_at_raise_os_path_exists path :
  stops_at_raise (Vector:=Vector) (os_path_exists path).
Proof.
  intros st. exists [ev_os_path_exists path]. split; [done|].
  intros msg Hin. by elem_of_inv Hin.
Qed.

Lemma stops_at_raise_silent {A} (m : M Vector A) (a : A) :
  (∀ st, m st = (Return a, st)) → stops_at_raise m.
Proof.
  intros Hm st. rewrite Hm. exists []. simpl. rewrite app_nil_r.
  auto using quiet_nil.
Qed.

Lemma stops_at_raise_add_to_chroma F chunks :
  stops_at_raise (populate_db.add_to_chroma embedding_function F chunks).
Proof.
  unfold populate_db.add_to_chroma, populate_db.get_embedding_function,
    Chroma, db_get, print, db_add_documents.
  apply stops_at_raise_bind; [by apply stops_at_raise_call|intros ef _ _ _].
  apply stops_at_raise_bind; [by apply stops_at_raise_call|intros d _ _ _].
  apply stops_at_raise_bind; [by apply stops_at_raise_call|intros items _ _ _].
  apply stops_at_raise_bind; [by apply stops_at_raise_call|intros _ _ _ _].
  apply stops_at_raise_bind.
  { eapply stops_at_raise_silent. intros st.
    apply new_chunks_loop_has_id, calculate_chunk_ids_has_id. }
  intros new_chunks st st1 [-> _]%new_chunks_loop_inv.
  case_decide.
  - apply stops_at_raise_bind; [by apply stops_at_raise_call|intros _ _ _ _].
    apply stops_at_raise_bind.
    { eapply stops_at_raise_silent. intros st'.
      apply ids_of_has_id, fresh_chunks_has_id, calculate_chunk_ids_has_id. }
    intros ids _ _ _.
    apply stops_at_raise_bind; [by apply stops_at_raise_call|intros _ _ _ _].
    apply stops_at_raise_bind; [by apply stops_at_raise_call|intros _ _ _ _].
    apply stops_at_raise_ret.
  - apply stops_at_raise_bind; [by apply stops_at_raise_call|intros _ _ _ _].
    apply stops_at_raise_ret.
Qed.

Lemma stops_at_raise_populate_database_try F reset :
  stops_at_raise
    (populate_db.populate_database_try embedding_function text_splitter F reset).
Proof.
  unfold populate_db.populate_database_try, populate_db.load_documents,
    populate_db.split_documents, populate_db.clear_database,
    PyPDFDirectoryLoader_load, shutil_rmtree, print.
  apply stops_at_raise_bind.
  { destruct reset; [|apply stops_at_raise_ret].
    apply stops_at_raise_bind; [by apply stops_at_raise_call|intros _ _ _ _].
    apply stops_at_raise_bind; [apply stops_at_raise_os_path_exists|intros [] _ _ _].
    - by apply stops_at_raise_call.
    - apply stops_at_raise_ret. }
  intros _ _ _ _.
  apply stops_at_raise_bind; [apply stops_at_raise_os_path_exists|intros [] _ _ _];
    simpl; [|apply stops_at_raise_ret].
  apply stops_at_raise_bind; [by apply stops_at_raise_call|intros documents _ _ _].
  case_decide; [apply stops_at_raise_ret|].
  apply stops_at_raise_bind; [by apply stops_at_raise_call|intros chunks _ _ _].
  apply stops_at_raise_bind; [apply stops_at_raise_add_to_chroma|intros n _ _ _].
  apply stops_at_raise_ret.
Qed.

Lemma stops_at_raise_clear_chroma_database F :
  stops_at_raise (clear_db.clear_chroma_database embedding_function F).
Proof.
  unfold clear_db.clear_chroma_database, clear_db.get_embedding_function,
    Chroma, db_get, db_delete.
  apply stops_at_raise_bind; [by apply stops_at_raise_call|intros ef _ _ _].
  apply stops_at_raise_bind; [by apply stops_at_raise_call|intros d _ _ _].
  apply stops_at_raise_bind; [by apply stops_at_raise_call|intros items _ _ _].
  apply stops_at_raise_bind; [|intros; apply stops_at_raise_ret].
  case_decide; [|apply stops_at_raise_ret].
  apply stops_at_raise_bind;
    [by apply stops_at_raise_call|intros; apply stops_at_raise_ret].
Qed.

(** X19. No retry and nothing after a failure: in a run of
    [populate_database] either no call raises and the run returns, or
    exactly one call raises and it is the last call of the run; the run
    then returns the error result with the message of the exception when
    this is an [Exception], and raises the exception otherwise. In a run
    of [clear_chroma_database] either no call raises and the run
    returns, or the call that raises is the last one and the run raises
    its exception. *)
Theorem exception_ends_the_run F reset st :
  (∃ evs,
     journal (populate_db.populate_database embedding_function text_splitter
                F reset st).2 = journal st ++ evs ∧
     ((quiet evs ∧
       ∃ r, (populate_db.populate_database embedding_function text_splitter
               F reset st).1 = Return r) ∨
      ∃ evs' e, evs = evs' ++ [ev_raised e] ∧ quiet evs' ∧
                (populate_db.populate_database embedding_function text_splitter
                   F reset st).1
                = if is_Exception e then Return (error_result (exn_str e))
                  else Raise e)) ∧
  (∃ evs,
     journal (clear_db.clear_chroma_database embedding_function F st).2
     = journal st ++ evs ∧
     ((quiet evs ∧
       ∃ r, (clear_db.clear_chroma_database embedding_function F st).1 = Return r) ∨
      ∃ evs' e, evs = evs' ++ [ev_raised e] ∧ quiet evs' ∧
                (clear_db.clear_chroma_database embedding_function F st).1
                = Raise e)).
Proof.
  split.
  - destruct (stops_at_raise_populate_database_try F reset st) as (evs & Hj & Ho).
    destruct (populate_database_cases embedding_function text_splitter F reset st)
      as [(r & st' & Htry & Hpop)|[(e & st' & Htry & He & Hpop)
         |(e & st' & Htry & He & Hpop)]];
      rewrite Htry in Hj, Ho; rewrite Hpop; simpl in *; exists evs;
      (split; [done|]).
    + left. eauto.
    + right. destruct Ho as (evs' & -> & Hquiet). exists evs', e. by rewrite He.
    + right. destruct Ho as (evs' & -> & Hquiet). exists evs', e. by rewrite He.
  - destruct (stops_at_raise_clear_chroma_database F st) as (evs & Hj & Ho).
    exists evs. split; [done|].
    destruct (clear_db.clear_chroma_database embedding_function F st).1 as [r|e].
    + left. eauto.
    + right. destruct Ho as (evs' & -> & Hquiet). by exists evs', e.
Qed.

(** X20. Documents in which the splitter finds no text are no error: in
    a run in which nothing raises, [populate_database] reports success
    with [chunks_created == 0] and [new_documents_added == 0], under the
    message that no new documents were added, asks for no upsert and
    leaves the records of the store as they were after the reset step. *)
Theorem populate_database_no_chunks F reset w documents r st' :
  data_dir w = Some documents → documents ≠ [] →
  text_splitter documents = [] →
  populate_db.populate_database embedding_function text_splitter F reset (init w)
  = (Return r, st') →
  quiet (journal st') →
  r !! "success" = Some (VBool true) ∧
  r !! "documents_processed" = Some (VInt (len documents)) ∧
  r !! "chunks_created" = Some (VInt 0) ∧
  r !! "new_documents_added" = Some (VInt 0) ∧
  r !! "message"
  = Some (VStr "No new documents were added. All documents already exist in the database.") ∧
  filter is_add (journal st') = [] ∧
  store_of (world st') = store_of (after_reset reset w).
Proof.
  intros Hdata Hne Hsplit Hrun Hquiet.
  destruct (populate_database_quiet_inv _ _ _ _ _ _ _ Hrun Hquiet)
    as [(Hd & _)|[(Hd & _)|(documents' & Hd & _ & Hr & Hworld & Hj)]];
    [congruence..|].
  assert (documents' = documents) as -> by congruence.
  rewrite Hsplit in *. subst r. rewrite Hworld, Hj.
  split_and!; try done.
  rewrite !filter_app. unfold reset_calls. by destruct reset, (chroma_dir w).
Qed.

End StopsAtRaiseFacts.

Lemma populate_database_no_chunks_witness :
  let run :=
    populate_db.populate_database demo_embedding no_text_splitter no_faults false
      (init demo_world) in
  data_dir demo_world = Some demo_corpus ∧ demo_corpus ≠ [] ∧
  no_text_splitter demo_corpus = [] ∧
  run = (Return (returned run ∅), run.2) ∧
  quiet (journal run.2) ∧
  returned run ∅ !! "success" = Some (VBool true) ∧
  returned run ∅ !! "chunks_created" = Some (VInt 0) ∧
  store_of (world run.2) = store_of demo_world.
Proof.
  intros run.
  assert (demo_corpus ≠ []) as Hne by done.
  assert (run = (Return (returned run ∅), run.2)) as Hrun by run_by_computation.
  assert (quiet (journal run.2)) as Hquiet by quiet_by_computation.
  destruct (populate_database_no_chunks demo_embedding no_text_splitter no_faults
              false demo_world demo_corpus _ _ eq_refl Hne eq_refl Hrun Hquiet)
    as (Hs & _ & Hc & _ & _ & _ & Hstore).
  exact (conj eq_refl (conj Hne (conj eq_refl (conj Hrun (conj Hquiet
           (conj Hs (conj Hc Hstore))))))).
Defined.
